(** * OOP_Sudoku: the [Board] class of [sudoku_solver_gen3.py]

    A shallow embedding of the solver/generator and the properties of its
    specification.  Python integers are [Z]; a list is a [list]; indexing
    follows Python (a negative index counts from the end, an index out of
    range raises [IndexError]); the set built by [get_valid_numbers] is a
    [gset Z]; the class attribute [difficulty_values] is a [gmap string Z].
    Methods that mutate [self.grid] pass the grid explicitly; the module
    [Obj] keeps the lists in a heap, for the lists that [get_row] and
    [get_col] hand out. *)

From Stdlib Require Import ZArith List Lia Bool.
From stdpp Require Import gmap strings list fin_maps sorting.

Open Scope Z_scope.

(** ** Exceptions and results *)

Inductive exn : Type :=
| IndexError
| KeyError (key : string)
| AssertionError (msg : string)
| TypeError.

(** The outcome of running a method: a value, a raised exception, or the
    recursion budget of the model used up. *)
Inductive result (A : Type) : Type :=
| Ret (a : A)
| Raise (e : exn)
| OutOfFuel.

Arguments Ret {A} a.
Arguments Raise {A} e.
Arguments OutOfFuel {A}.

Global Instance result_ret : MRet result := λ A a, Ret a.
Global Instance result_bind : MBind result := λ A B k m,
  match m with
  | Ret a => k a
  | Raise e => Raise e
  | OutOfFuel => OutOfFuel
  end.

(** ** The grid *)

Definition BOARD_SIZE : Z := 9.
(** [int(np.sqrt(BOARD_SIZE))] *)
Definition BOX_SIZE : Z := 3.

Abbreviation Grid := (list (list Z)).

(** Python's [l[i]]. *)
Definition py_index (n : nat) (i : Z) : option nat :=
  let len := Z.of_nat n in
  let k := if i <? 0 then i + len else i in
  if (0 <=? k) && (k <? len) then Some (Z.to_nat k) else None.

Definition getitem {A} (l : list A) (i : Z) : result A :=
  match py_index (length l) i with
  | Some k => match l !! k with Some x => Ret x | None => Raise IndexError end
  | None => Raise IndexError
  end.

(** Python's [l[i] = x] on a list. *)
Definition setitem {A} (l : list A) (i : Z) (x : A) : result (list A) :=
  match py_index (length l) i with
  | Some k => Ret (<[k := x]> l)
  | None => Raise IndexError
  end.

(** [self.grid[i][j]] *)
Definition cell (grid : Grid) (i j : Z) : result Z :=
  row ← getitem grid i ; getitem row j.

(** [self.grid[i][j] = v] *)
Definition set_cell (grid : Grid) (i j v : Z) : result Grid :=
  row ← getitem grid i ;
  row' ← setitem row j v ;
  setitem grid i row'.

(** [range(n)] and [range(a, b)] *)
Definition range (n : Z) : list Z := seqZ 0 n.
Definition range2 (a b : Z) : list Z := seqZ a (b - a).

(** ** Structural queries *)

Definition get_row (grid : Grid) (row : Z) : result (list Z) :=
  getitem grid row.

Definition get_col (grid : Grid) (col : Z) : result (list Z) :=
  mapM (λ i, cell grid i col) (range BOARD_SIZE).

Definition get_box (grid : Grid) (row col : Z) : result (list Z) :=
  let box_row := (row `div` BOX_SIZE) * BOX_SIZE in
  let box_col := (col `div` BOX_SIZE) * BOX_SIZE in
  mapM (λ ij : Z * Z, cell grid (box_row + ij.1) (box_col + ij.2))
       (i ← range BOX_SIZE; j ← range BOX_SIZE; [(i, j)]).

Definition get_valid_numbers (grid : Grid) (row col : Z) : result (list Z) :=
  r ← get_row grid row ;
  c ← get_col grid col ;
  b ← get_box grid row col ;
  let used_nums : gset Z := list_to_set (r ++ c ++ b) in
  Ret (filter (λ num, num ∉ used_nums) (range2 1 10)).

(** [np.where(np.array(self.grid) == 0)] scans the matrix in row-major
    order; zipping its two index arrays gives the coordinates. *)
Fixpoint zeros_in_row (i j : Z) (row : list Z) : list (Z * Z) :=
  match row with
  | [] => []
  | v :: vs => (if v =? 0 then [(i, j)] else []) ++ zeros_in_row i (j + 1) vs
  end.

Fixpoint zeros_from (i : Z) (grid : Grid) : list (Z * Z) :=
  match grid with
  | [] => []
  | row :: rows => zeros_in_row i 0 row ++ zeros_from (i + 1) rows
  end.

Definition get_empty_cells (grid : Grid) : list (Z * Z) := zeros_from 0 grid.

(** ** Cell selection *)

(** Python's [min(iterable, key=f)]: the key of each element is computed
    once, and an element replaces the current best only when its key is
    strictly smaller. *)
Fixpoint min_scan {A} (key : A → result Z) (best : A) (best_key : Z)
    (rest : list A) : result A :=
  match rest with
  | [] => Ret best
  | x :: xs =>
      k ← key x ;
      if k <? best_key then min_scan key x k xs
      else min_scan key best best_key xs
  end.

Definition py_min {A} (l : list A) (key : A → result Z) : result (option A) :=
  match l with
  | [] => Ret None
  | x :: xs => k ← key x ; m ← min_scan key x k xs ; Ret (Some m)
  end.

Definition candidate_count (grid : Grid) (x : Z * Z) : result Z :=
  v ← get_valid_numbers grid x.1 x.2 ; Ret (Z.of_nat (length v)).

Definition get_min_remaining_values_cell (grid : Grid)
    : result (option (Z * Z)) :=
  let empty_cells := get_empty_cells grid in
  match empty_cells with
  | [] => Ret None
  | _ => py_min empty_cells (candidate_count grid)
  end.

(** ** Backtracking search *)

(** The [for num in valid_nums] loop of [solve]; [solve_self] is the nested
    call [self.solve()]. *)
Fixpoint try_candidates (solve_self : Grid → result (bool * Grid))
    (row col : Z) (nums : list Z) (grid : Grid) : result (bool * Grid) :=
  match nums with
  | [] => Ret (false, grid)
  | num :: nums' =>
      g1 ← set_cell grid row col num ;
      '(ok, g2) ← solve_self g1 ;
      if ok : bool then Ret (true, g2)
      else g3 ← set_cell g2 row col 0 ;
           try_candidates solve_self row col nums' g3
  end.

(** [solve_rec fuel grid] runs [solve] with at most [fuel] nested calls and
    returns the boolean together with the grid the call leaves behind. *)
Fixpoint solve_rec (fuel : nat) (grid : Grid) : result (bool * Grid) :=
  match fuel with
  | O => OutOfFuel
  | S fuel' =>
      c ← get_min_remaining_values_cell grid ;
      match c with
      | None => Ret (true, grid)
      | Some (row, col) =>
          valid_nums ← get_valid_numbers grid row col ;
          try_candidates (solve_rec fuel') row col valid_nums grid
      end
  end.

(** Every nested call fills one more cell, so one call per empty cell and
    one for the complete grid are enough. *)
Definition solve (grid : Grid) : result (bool * Grid) :=
  solve_rec (S (length (get_empty_cells grid))) grid.

(** ** The solved test *)

(** Python's [all] over a generator: it stops at the first false item. *)
Fixpoint py_all {A} (test : A → result bool) (l : list A) : result bool :=
  match l with
  | [] => Ret true
  | x :: xs => b ← test x ; if b : bool then py_all test xs else Ret false
  end.

(** [(i, j) for i in range(BOARD_SIZE) for j in range(BOARD_SIZE)] *)
Definition all_cells : list (Z * Z) :=
  i ← range BOARD_SIZE; j ← range BOARD_SIZE; [(i, j)].

Definition is_solved (grid : Grid) : result bool :=
  if bool_decide (get_empty_cells grid = []) then
    py_all (λ ij : Z * Z,
              valid ← get_valid_numbers grid ij.1 ij.2 ;
              v ← cell grid ij.1 ij.2 ;
              Ret (bool_decide (valid = [v])))
           all_cells
  else Ret false.

(** ** Generation *)

Definition difficulty_values : gmap string Z :=
  {[ "easy" := 30; "medium" := 40; "hard" := 50; "expert" := 60 ]}.

(** The two kinds of Python value that meet in the assertion of [__init__]. *)
Inductive pyval : Type :=
| PyStr (s : string)
| PyDict (d : gmap string Z).

(** Python's [!=]: values of different types are never equal. *)
Definition py_ne (a b : pyval) : bool :=
  match a, b with
  | PyStr s, PyStr t => bool_decide (s ≠ t)
  | PyDict d, PyDict e => bool_decide (d ≠ e)
  | _, _ => true
  end.

Definition invalid_difficulty (difficulty : string) : string :=
  difficulty +:+ " is not a valid difficulty, Please enter a difficulty: easy, medium, hard, or expert".

(** [self.difficulty_values[difficulty]] *)
Definition dict_getitem (d : gmap string Z) (key : string) : result Z :=
  match d !! key with
  | Some v => Ret v
  | None => Raise (KeyError key)
  end.

(** The [for _ in range(10)] loop of [__create_board], with [n] trials left.
    It returns the final [count] and [self.grid]. *)
Fixpoint sample (n : nat) (count : Z) (grid : Grid) (i j temp : Z)
    : result (Z * Grid) :=
  match n with
  | O => Ret (count, grid)
  | S n' =>
      temp_grid ← set_cell grid i j temp ;
      '(_, temp_grid) ← solve temp_grid ;
      solved ← is_solved temp_grid ;
      let count := if solved : bool then count + 1 else count in
      if 1 <? count then
        grid ← set_cell grid i j temp ; Ret (count, grid)
      else sample n' count grid i j temp
  end.

(** The [for i, j in cells] loop of [__create_board]. *)
Fixpoint remove_cells (num_zeros : Z) (cells : list (Z * Z)) (grid : Grid)
    : result Grid :=
  match cells with
  | [] => Ret grid
  | (i, j) :: cells' =>
      temp ← cell grid i j ;
      grid ← set_cell grid i j 0 ;
      '(_, grid) ← sample 10 0 grid i j temp ;
      if num_zeros <=? Z.of_nat (length (get_empty_cells grid)) then Ret grid
      else remove_cells num_zeros cells' grid
  end.

(** [[[0 for _ in range(BOARD_SIZE)] for _ in range(BOARD_SIZE)]] *)
Definition empty_grid : Grid :=
  (λ _, (λ _, 0) <$> range BOARD_SIZE) <$> range BOARD_SIZE.

(** [shuffle] is the permutation that [random.shuffle] applies. *)
Definition create_board (shuffle : list (Z * Z) → list (Z * Z))
    (difficulty : string) : result Grid :=
  '(_, grid) ← solve empty_grid ;
  num_zeros ← dict_getitem difficulty_values difficulty ;
  remove_cells num_zeros (shuffle all_cells) grid.

(** [Board(difficulty)]: the grid of the constructed board. *)
Definition Board_init (shuffle : list (Z * Z) → list (Z * Z))
    (difficulty : string) : result Grid :=
  if py_ne (PyStr difficulty) (PyDict difficulty_values)
  then create_board shuffle difficulty
  else Raise (AssertionError (invalid_difficulty difficulty)).

(** ** Lists as objects

    [get_row] hands out a list that lives in the heap of the interpreter.
    Here a list object is a location of a heap, a list holds integers or
    references to other lists, and a board holds the location of its
    [grid]. *)
Module Obj.

Abbreviation loc := positive.

Inductive value : Type :=
| Int (n : Z)
| Ref (l : loc).

Abbreviation heap := (gmap loc (list value)).

Record Board : Type := { grid : loc }.

(** The list behind a value; an integer has none. A reference always
    points into the heap in a running program. *)
Definition deref (h : heap) (v : value) : result (list value) :=
  match v with
  | Ref l => match h !! l with Some xs => Ret xs | None => Raise TypeError end
  | Int _ => Raise TypeError
  end.

(** [v[i]] *)
Definition index (h : heap) (v : value) (i : Z) : result value :=
  xs ← deref h v ; getitem xs i.

(** [v[i] = x] *)
Definition assign (h : heap) (v : value) (i : Z) (x : value) : result heap :=
  match v with
  | Ref l =>
      xs ← deref h v ; xs' ← setitem xs i x ; Ret (<[l := xs']> h)
  | Int _ => Raise TypeError
  end.

(** A new list object. *)
Definition alloc (h : heap) (xs : list value) : heap * value :=
  let l := fresh (dom h) in (<[l := xs]> h, Ref l).

(** [return self.grid[row]] *)
Definition get_row (h : heap) (self : Board) (row : Z) : result value :=
  index h (Ref (grid self)) row.

(** [return [self.grid[i][col] for i in range(BOARD_SIZE)]] *)
Definition get_col (h : heap) (self : Board) (col : Z)
    : result (heap * value) :=
  xs ← mapM (λ i, r ← index h (Ref (grid self)) i ; index h r col)
            (range BOARD_SIZE) ;
  Ret (alloc h xs).

Definition int_of (v : value) : result Z :=
  match v with Int n => Ret n | Ref _ => Raise TypeError end.

(** The integers of the list behind [v]. *)
Definition ints (h : heap) (v : value) : result (list Z) :=
  xs ← deref h v ; mapM int_of xs.

(** The matrix that [self.grid] denotes. *)
Definition read (h : heap) (self : Board) : result Grid :=
  rows ← deref h (Ref (grid self)) ; mapM (ints h) rows.

(** The objects of a grid: one list per row and the list of the rows. *)
Fixpoint alloc_rows (h : heap) (g : Grid) : heap * list value :=
  match g with
  | [] => (h, [])
  | row :: rows =>
      let '(h1, r) := alloc h (Int <$> row) in
      let '(h2, rs) := alloc_rows h1 rows in
      (h2, r :: rs)
  end.

Definition new_board (h : heap) (g : Grid) : heap * Board :=
  let '(h1, rs) := alloc_rows h g in
  let l := fresh (dom h1) in
  (<[l := rs]> h1, {| grid := l |}).

End Obj.

Arguments sample : simpl never.
Arguments solve : simpl never.
Arguments is_solved : simpl never.

(** ** Vocabulary of the statements *)

(** The shape that [__create_board] gives the grid and that every
    assignment to a cell keeps: 9 rows of 9 cells. *)
Definition wf_grid (grid : Grid) : Prop :=
  length grid = 9%nat ∧ Forall (λ row, length row = 9%nat) grid.

Definition in_board (i : Z) : Prop := 0 ≤ i ≤ 8.

(** The value of a result, [d] when there is none. *)
Definition the {A} (d : A) (m : result A) : A :=
  match m with Ret a => a | _ => d end.

(** The content of a cell, as a total function. *)
Definition val (grid : Grid) (i j : Z) : Z := the 0 (cell grid i j).

Definition digits : list Z := range2 1 10.

(** The cell [x] has exactly [n] candidates. *)
Definition has_candidates (grid : Grid) (x : Z * Z) (n : nat) : Prop :=
  ∃ l, get_valid_numbers grid x.1 x.2 = Ret l ∧ length l = n.

(** The positions of a box, relative to its origin. *)
Definition box_offsets : list (Z * Z) :=
  i ← range BOX_SIZE; j ← range BOX_SIZE; [(i, j)].

(** Every row, every column and every box holds each of 1..9 once. *)
Definition complete (grid : Grid) : Prop :=
  (∀ r, in_board r → ∃ l, get_row grid r = Ret l ∧ l ≡ₚ digits) ∧
  (∀ c, in_board c → ∃ l, get_col grid c = Ret l ∧ l ≡ₚ digits) ∧
  (∀ r c, in_board r → in_board c →
     ∃ l, get_box grid r c = Ret l ∧ l ≡ₚ digits).

(** The number of empty cells that a cell holding [v] counts for. *)
Definition zero_count (v : Z) : nat := if v =? 0 then 1%nat else 0%nat.

(** What a call of [solve] guarantees to its caller. *)
Definition solve_post (g : Grid) (r : result (bool * Grid)) : Prop :=
  ∃ b g', r = Ret (b, g') ∧ wf_grid g' ∧
          (b = false → g' = g) ∧ (b = true → get_empty_cells g' = []).

(** A decidable form of [complete], for a grid at hand. *)
Definition group_ok (m : result (list Z)) : Prop :=
  match m with Ret l => l ≡ₚ digits | _ => False end.

Definition complete_check (grid : Grid) : Prop :=
  Forall (λ r, group_ok (get_row grid r)) (range BOARD_SIZE) ∧
  Forall (λ c, group_ok (get_col grid c)) (range BOARD_SIZE) ∧
  Forall (λ x : Z * Z, group_ok (get_box grid x.1 x.2)) all_cells.

Global Instance in_board_dec (i : Z) : Decision (in_board i).
Proof. unfold in_board. apply _. Defined.

Global Instance group_ok_dec (m : result (list Z)) : Decision (group_ok m).
Proof. destruct m; simpl; apply _. Defined.

(** The grid that [solve] builds from the empty grid. *)
Definition first_solution : Grid :=
  [[1; 2; 3; 4; 5; 6; 7; 8; 9]; [4; 5; 6; 7; 8; 9; 1; 2; 3];
   [7; 8; 9; 1; 2; 3; 4; 5; 6]; [2; 3; 1; 6; 7; 4; 8; 9; 5];
   [8; 7; 5; 9; 1; 2; 3; 6; 4]; [6; 9; 4; 5; 3; 8; 2; 1; 7];
   [3; 1; 7; 2; 6; 5; 9; 4; 8]; [5; 4; 2; 8; 9; 7; 6; 3; 1];
   [9; 6; 8; 3; 4; 1; 5; 7; 2]].

(** A grid on which the search fills a cell and then has to give up: the
    first two cells of the top row can only take 2. *)
Definition dead_end_grid : Grid :=
  [[0; 0; 3; 4; 5; 6; 7; 8; 9]; [0; 0; 0; 0; 0; 0; 0; 0; 0];
   [0; 0; 0; 0; 0; 0; 0; 0; 0]; [0; 0; 0; 0; 0; 0; 0; 0; 0];
   [0; 0; 0; 0; 0; 0; 0; 0; 0]; [1; 0; 0; 0; 0; 0; 0; 0; 0];
   [0; 1; 0; 0; 0; 0; 0; 0; 0]; [0; 0; 0; 0; 0; 0; 0; 0; 0];
   [0; 0; 0; 0; 0; 0; 0; 0; 0]].

(** A board in a heap of its own, whose grid is [first_solution]. *)
Definition example_board : Obj.heap * Obj.Board :=
  Obj.new_board ∅ first_solution.

(** ** Vocabulary of the further properties *)

(** Two cells share a row, a column or a box. *)
Definition same_unit (r c r' c' : Z) : Prop :=
  r = r' ∨ c = c' ∨ (r `div` 3 = r' `div` 3 ∧ c `div` 3 = c' `div` 3).

(** No filled cell has its value a second time in its row, its column or
    its box. *)
Definition conflict_free (grid : Grid) : Prop :=
  ∀ r c r' c', in_board r → in_board c → in_board r' → in_board c' →
    (r, c) ≠ (r', c') → same_unit r c r' c' →
    val grid r c ≠ 0 → val grid r c ≠ val grid r' c'.

(** Every cell holds 0 or a digit. *)
Definition cells_in_range (grid : Grid) : Prop :=
  ∀ r c, in_board r → in_board c → 0 ≤ val grid r c ≤ 9.

(** The grid [s] has the filled cells of [g]. *)
Definition extends (s g : Grid) : Prop :=
  ∀ r c, in_board r → in_board c → val g r c ≠ 0 → val s r c = val g r c.

(** [conflict_free] and [cells_in_range] as checks over the 81 cells. *)
Definition conflict_free_check (grid : Grid) : Prop :=
  Forall (λ x : Z * Z,
    Forall (λ y : Z * Z,
      x ≠ y → same_unit x.1 x.2 y.1 y.2 →
      val grid x.1 x.2 ≠ 0 → val grid x.1 x.2 ≠ val grid y.1 y.2) all_cells)
    all_cells.

Definition cells_in_range_check (grid : Grid) : Prop :=
  Forall (λ x : Z * Z, 0 ≤ val grid x.1 x.2 ≤ 9) all_cells.

Global Instance same_unit_dec (r c r' c' : Z) : Decision (same_unit r c r' c').
Proof. unfold same_unit. apply _. Defined.

(** What a call of [solve] guarantees in full: on failure the grid is as
    before and has no completion; on success no cell is empty, the filled
    cells are kept, and no conflict or foreign value has come in. *)
Definition solve_post_full (g : Grid) (r : result (bool * Grid)) : Prop :=
  ∃ b g', r = Ret (b, g') ∧ wf_grid g' ∧
    (b = false →
       g' = g ∧ ∀ s, wf_grid s → complete s → ¬ extends s g) ∧
    (b = true →
       get_empty_cells g' = [] ∧ extends g' g ∧
       (conflict_free g → conflict_free g') ∧
       (cells_in_range g → cells_in_range g')).

Definition extends_check (s g : Grid) : Prop :=
  Forall (λ x : Z * Z, val g x.1 x.2 ≠ 0 → val s x.1 x.2 = val g x.1 x.2)
         all_cells.

(** A puzzle: [first_solution] without its first 30 cells. *)
Definition example_puzzle : Grid :=
  [[0; 0; 0; 0; 0; 0; 0; 0; 0]; [0; 0; 0; 0; 0; 0; 0; 0; 0];
   [0; 0; 0; 0; 0; 0; 0; 0; 0]; [0; 0; 0; 6; 7; 4; 8; 9; 5];
   [8; 7; 5; 9; 1; 2; 3; 6; 4]; [6; 9; 4; 5; 3; 8; 2; 1; 7];
   [3; 1; 7; 2; 6; 5; 9; 4; 8]; [5; 4; 2; 8; 9; 7; 6; 3; 1];
   [9; 6; 8; 3; 4; 1; 5; 7; 2]].

(** Row-major order of coordinates. *)
Definition row_major_lt (a b : Z * Z) : Prop :=
  a.1 < b.1 ∨ (a.1 = b.1 ∧ a.2 < b.2).

(** ** Copies

    [copy.deepcopy] on the objects of [Obj]: an integer is its own copy; a
    list is copied into a new list, which is entered in [memo] before its
    items are copied, so that an object met twice is copied once. *)
Module Copy.
Import Obj.

Abbreviation memo := (gmap loc loc).

(** The loop [for a in x: append(deepcopy(a, memo))] on the new list [y]. *)
Fixpoint copy_items (rec : heap → memo → value → result (heap * memo * value))
    (y : loc) (xs : list value) (h : heap) (m : memo) : result (heap * memo) :=
  match xs with
  | [] => Ret (h, m)
  | a :: xs' =>
      '(h1, m1, a') ← rec h m a ;
      ys ← deref h1 (Ref y) ;
      copy_items rec y xs' (<[y := ys ++ [a']]> h1) m1
  end.

(** [deepcopy(v, memo)], with at most [fuel] lists nested in each other. *)
Fixpoint deepcopy (fuel : nat) (h : heap) (m : memo) (v : value)
    : result (heap * memo * value) :=
  match v with
  | Int n => Ret (h, m, Int n)
  | Ref l =>
      match m !! l with
      | Some y => Ret (h, m, Ref y)
      | None =>
          match fuel with
          | O => OutOfFuel
          | S fuel' =>
              xs ← deref h v ;
              let y := fresh (dom h) in
              '(h', m') ← copy_items (deepcopy fuel') y xs
                                      (<[y := []]> h) (<[l := y]> m) ;
              Ret (h', m', Ref y)
          end
      end
  end.

(** [return deepcopy(self.grid)]; a list nested in itself apart, lists
    are nested no deeper than there are lists in the heap. *)
Definition get_grid (h : heap) (self : Board) : result (heap * value) :=
  '(h', _, v) ← deepcopy (S (size h)) h ∅ (Ref (grid self)) ;
  Ret (h', v).

(** The matrix behind a list of lists of integers. *)
Definition matrix (h : heap) (v : value) : result Grid :=
  rows ← deref h v ; mapM (ints h) rows.

(** The state of the copy of a grid while its rows are copied: the old
    heap [h] is part of the new one, the new outer list [y] holds the
    copies made so far, and the memo maps the rows met to their copies. *)
Definition copying (h : heap) (lg y : loc) (hk : heap) (mk : gmap loc loc)
    (done : Grid) : Prop :=
  h ⊆ hk ∧ h !! y = None ∧ mk !! lg = Some y ∧
  (∀ l l', mk !! l = Some l' → l ≠ lg →
     h !! l' = None ∧ l' ≠ y ∧
     ∃ row, h !! l = Some (Int <$> row) ∧ hk !! l' = Some (Int <$> row)) ∧
  ∃ acc, hk !! y = Some acc ∧
         Forall2 (λ v row, ∃ l', v = Ref l' ∧ h !! l' = None ∧ l' ≠ y ∧
                                 hk !! l' = Some (Int <$> row)) acc done.

End Copy.

(** ** Printing

    [print_board] writes to the standard output; here a method that prints
    takes the text written so far and returns it with what it adds.
    [pretty] is [str] on integers. *)

From stdpp Require Import pretty.
Open Scope Z_scope.

Definition newline : string := String (Ascii.ascii_of_nat 10) "".

(** A [for] loop whose body updates a state and can raise. *)
Fixpoint for_each {A S} (body : A → S → result S) (l : list A) (s : S)
    : result S :=
  match l with
  | [] => Ret s
  | x :: xs => s' ← body x s ; for_each body xs s'
  end.

(** The body of the loop on [j]. *)
Definition print_cell (grid : Grid) (i j : Z) (out : string) : result string :=
  v ← cell grid i j ;
  let out := out +:+ pretty v +:+ " " in
  Ret (if bool_decide ((j + 1) `mod` BOX_SIZE = 0) && bool_decide (j ≠ 8)
       then out +:+ "|" +:+ " " else out).

(** The body of the loop on [i]. *)
Definition print_row (grid : Grid) (i : Z) (out : string) : result string :=
  out ← for_each (print_cell grid i) (range BOARD_SIZE) out ;
  let out := out +:+ newline in
  Ret (if bool_decide ((i + 1) `mod` BOX_SIZE = 0) && bool_decide (i ≠ 8)
       then out +:+ "- - - - - - - - - - - " +:+ newline else out).

Definition print_board (grid : Grid) : result string :=
  for_each (print_row grid) (range BOARD_SIZE) "".

(** The character of a digit. *)
Definition digit_char (v : Z) : Ascii.ascii :=
  Ascii.ascii_of_nat (48 + Z.to_nat v).

(** The line of a row: each digit and a space, a bar and a space after the
    third and the sixth. *)
Definition row_line (grid : Grid) (i : Z) : string :=
  let d j := digit_char (val grid i j) in
  let sp := Ascii.ascii_of_nat 32 in
  let bar := Ascii.ascii_of_nat 124 in
  String.string_of_list_ascii
    [d 0; sp; d 1; sp; d 2; sp; bar; sp;
     d 3; sp; d 4; sp; d 5; sp; bar; sp;
     d 6; sp; d 7; sp; d 8; sp].

Definition separator_line : string := "- - - - - - - - - - - ".

(** The 11 lines of a printed board. *)
Definition board_lines (grid : Grid) : list string :=
  [row_line grid 0; row_line grid 1; row_line grid 2; separator_line;
   row_line grid 3; row_line grid 4; row_line grid 5; separator_line;
   row_line grid 6; row_line grid 7; row_line grid 8].

(** What [solve] makes of [example_puzzle]: a completion other than
    [first_solution]. *)
Definition example_solved : Grid :=
  [[2; 3; 1; 4; 5; 6; 7; 8; 9]; [4; 5; 6; 7; 8; 9; 1; 2; 3];
   [7; 8; 9; 1; 2; 3; 4; 5; 6]; [1; 2; 3; 6; 7; 4; 8; 9; 5];
   [8; 7; 5; 9; 1; 2; 3; 6; 4]; [6; 9; 4; 5; 3; 8; 2; 1; 7];
   [3; 1; 7; 2; 6; 5; 9; 4; 8]; [5; 4; 2; 8; 9; 7; 6; 3; 1];
   [9; 6; 8; 3; 4; 1; 5; 7; 2]].

(** ** The window of [sudoku_gui.py] *)

Definition SCREEN_WIDTH : Z := 540.
Definition SCREEN_HEIGHT : Z := 600.
Definition CELL_SIZE : Z := 60.

(** The [MOUSEBUTTONDOWN] branch of [SudokuGUI.run]: the new value of
    [self.selected] after a press of [button] at [(x, y)]. *)
Definition mouse_button_down (button x y : Z) (selected : option (Z * Z))
    : option (Z * Z) :=
  if bool_decide (button = 1) then
    if bool_decide (y < SCREEN_HEIGHT - 60)
    then Some (y `div` CELL_SIZE, x `div` CELL_SIZE)
    else selected
  else selected.

(** The rectangle of [draw_selected_cell]: left, top, width, height. *)
Definition selected_rect (selected : Z * Z) : Z * Z * Z * Z :=
  let '(i, j) := selected in (j * CELL_SIZE, i * CELL_SIZE, CELL_SIZE, CELL_SIZE).

(** * Properties *)

(** ** Indexing *)

Lemma py_index_nonneg (n : nat) (i : Z) :
  0 ≤ i < Z.of_nat n → py_index n i = Some (Z.to_nat i).
Proof.
  intros Hi. unfold py_index.
  destruct (Z.ltb_spec i 0); [lia|].
  destruct (Z.leb_spec 0 i); [|lia].
  destruct (Z.ltb_spec i (Z.of_nat n)); [done|lia].
Qed.

Lemma getitem_lookup {A} (l : list A) (i : Z) (x : A) :
  0 ≤ i → l !! Z.to_nat i = Some x → getitem l i = Ret x.
Proof.
  intros Hi Hx. unfold getitem.
  rewrite py_index_nonneg; [by rewrite Hx|].
  apply lookup_lt_Some in Hx. lia.
Qed.

Lemma setitem_nonneg {A} (l : list A) (i : Z) (x : A) :
  0 ≤ i < Z.of_nat (length l) → setitem l i x = Ret (<[Z.to_nat i := x]> l).
Proof. intros Hi. unfold setitem. by rewrite py_index_nonneg. Qed.

Lemma the_Ret {A} (d : A) (m : result A) (a : A) : m = Ret a → m = Ret (the d m).
Proof. by intros ->. Qed.

Lemma mapM_Ret {A B} (f : A → result B) (h : A → B) (l : list A) :
  (∀ x, x ∈ l → f x = Ret (h x)) → mapM f l = Ret (h <$> l).
Proof.
  induction l as [|x l IH]; intros Hf; [done|].
  cbn. rewrite (Hf x) by left. cbn.
  rewrite IH; [done|]. intros y Hy. apply Hf. by right.
Qed.

(** ** Well-formed grids *)

Lemma wf_row (g : Grid) (i : Z) :
  wf_grid g → in_board i →
  ∃ row, g !! Z.to_nat i = Some row ∧ length row = 9%nat.
Proof.
  intros [Hlen Hrows] Hi. unfold in_board in Hi.
  destruct (lookup_lt_is_Some_2 g (Z.to_nat i)) as [row Hrow]; [lia|].
  exists row. split; [done|].
  by apply (Forall_lookup_1 _ _ _ _ Hrows Hrow).
Qed.

Lemma wf_cell (g : Grid) (i j : Z) :
  wf_grid g → in_board i → in_board j →
  ∃ row v, g !! Z.to_nat i = Some row ∧ row !! Z.to_nat j = Some v ∧
           cell g i j = Ret v.
Proof.
  intros Hwf Hi Hj. destruct (wf_row g i Hwf Hi) as (row & Hrow & Hlen).
  unfold in_board in *.
  destruct (lookup_lt_is_Some_2 row (Z.to_nat j)) as [v Hv]; [lia|].
  exists row, v. split_and!; [done..|].
  unfold cell. rewrite (getitem_lookup g i row) by (done || lia).
  cbn. apply getitem_lookup; [lia|done].
Qed.

Lemma cell_val (g : Grid) (i j : Z) :
  wf_grid g → in_board i → in_board j → cell g i j = Ret (val g i j).
Proof.
  intros Hwf Hi Hj. destruct (wf_cell g i j) as (? & v & _ & _ & Hc); [done..|].
  by apply the_Ret with v.
Qed.

Lemma get_row_wf (g : Grid) (r : Z) :
  wf_grid g → in_board r →
  ∃ row, g !! Z.to_nat r = Some row ∧ length row = 9%nat ∧
         get_row g r = Ret row.
Proof.
  intros Hwf Hr. destruct (wf_row g r Hwf Hr) as (row & Hrow & Hlen).
  exists row. split_and!; [done..|].
  unfold in_board in Hr. apply getitem_lookup; [lia|done].
Qed.

Lemma elem_of_range (n i : Z) : i ∈ range n ↔ 0 ≤ i < n.
Proof. unfold range. rewrite elem_of_seqZ. lia. Qed.

Lemma get_col_wf (g : Grid) (c : Z) :
  wf_grid g → in_board c →
  get_col g c = Ret ((λ i, val g i c) <$> range BOARD_SIZE).
Proof.
  intros Hwf Hc. unfold get_col. apply mapM_Ret.
  intros i Hi%elem_of_range. apply cell_val; [done| |done].
  unfold in_board, BOARD_SIZE in *. lia.
Qed.

Lemma elem_of_box_offsets (a b : Z) :
  (a, b) ∈ box_offsets ↔ (0 ≤ a < 3 ∧ 0 ≤ b < 3).
Proof.
  unfold box_offsets. rewrite list_elem_of_bind. split.
  - intros (i & Hab & Hi%elem_of_range).
    apply list_elem_of_bind in Hab as (j & Hab & Hj%elem_of_range).
    apply list_elem_of_singleton in Hab. unfold BOX_SIZE in *.
    simplify_eq. lia.
  - intros [Ha Hb]. exists a. split; [|by apply elem_of_range].
    apply list_elem_of_bind. exists b. split; [|by apply elem_of_range].
    by apply list_elem_of_singleton.
Qed.

Lemma box_in_board (r a : Z) :
  in_board r → 0 ≤ a < 3 → in_board (r `div` BOX_SIZE * BOX_SIZE + a).
Proof. unfold in_board, BOX_SIZE. intros. Z.to_euclidean_division_equations. lia. Qed.

Lemma get_box_wf (g : Grid) (r c : Z) :
  wf_grid g → in_board r → in_board c →
  get_box g r c =
    Ret ((λ ij : Z * Z, val g (r `div` BOX_SIZE * BOX_SIZE + ij.1)
                              (c `div` BOX_SIZE * BOX_SIZE + ij.2))
         <$> box_offsets).
Proof.
  intros Hwf Hr Hc. unfold get_box. apply mapM_Ret.
  intros [a b] [Ha Hb]%elem_of_box_offsets.
  apply cell_val; [done|by apply box_in_board..].
Qed.

(** ** Candidates *)

Lemma or_iff3 (A B C A' B' C' : Prop) :
  (A ↔ A') → (B ↔ B') → (C ↔ C') → (A ∨ B ∨ C) ↔ (A' ∨ B' ∨ C').
Proof. tauto. Qed.

(** The values that [get_valid_numbers] collects for a cell. *)
Lemma get_valid_numbers_wf (g : Grid) (r c : Z) :
  wf_grid g → in_board r → in_board c →
  ∃ used : list Z,
    get_valid_numbers g r c =
      Ret (filter (λ num, num ∉ (list_to_set used : gset Z)) digits) ∧
    ∀ d, d ∈ used ↔
      (∃ j, in_board j ∧ cell g r j = Ret d) ∨
      (∃ i, in_board i ∧ cell g i c = Ret d) ∨
      (∃ i j, in_board i ∧ in_board j ∧
              i `div` 3 = r `div` 3 ∧ j `div` 3 = c `div` 3 ∧
              cell g i j = Ret d).
Proof.
  intros Hwf Hr Hc.
  destruct (get_row_wf g r Hwf Hr) as (row & Hrow & Hlen & Hget).
  eexists. split.
  { unfold get_valid_numbers.
    rewrite Hget, get_col_wf, get_box_wf by done. cbn. reflexivity. }
  intros d. rewrite !elem_of_app. apply or_iff3.
  - rewrite list_elem_of_lookup. split.
    + intros [k Hk]. exists (Z.of_nat k).
      pose proof (lookup_lt_Some _ _ _ Hk). split; [unfold in_board; lia|].
      unfold cell. rewrite (getitem_lookup g r row) by (done || apply Hr).
      cbn. apply getitem_lookup; [lia|]. by rewrite Nat2Z.id.
    + intros (j & Hj & Hd).
      destruct (wf_cell g r j) as (row' & v & Hrow' & Hv & Hcell); [done..|].
      exists (Z.to_nat j). congruence.
  - rewrite list_elem_of_fmap. split.
    + intros (i & -> & Hi%elem_of_range).
      assert (in_board i) by (unfold in_board, BOARD_SIZE in *; lia).
      exists i. split; [done|]. by apply cell_val.
    + intros (i & Hi & Hd). exists i. split.
      * unfold val. by rewrite Hd.
      * apply elem_of_range. unfold in_board, BOARD_SIZE in *. lia.
  - rewrite list_elem_of_fmap. split.
    + intros ([a b] & -> & [Ha Hb]%elem_of_box_offsets). cbn.
      exists (r `div` BOX_SIZE * BOX_SIZE + a), (c `div` BOX_SIZE * BOX_SIZE + b).
      split_and!; [by apply box_in_board..| | |].
      3: { apply cell_val; [done|by apply box_in_board..]. }
      all: unfold BOX_SIZE; Z.to_euclidean_division_equations; lia.
    + intros (i & j & Hi & Hj & Hir & Hjc & Hd).
      exists (i - r `div` BOX_SIZE * BOX_SIZE, j - c `div` BOX_SIZE * BOX_SIZE).
      cbn. split.
      * replace (_ + (i - _)) with i by lia. replace (_ + (j - _)) with j by lia.
        unfold val. by rewrite Hd.
      * apply elem_of_box_offsets. unfold in_board, BOX_SIZE in *.
        Z.to_euclidean_division_equations. lia.
Qed.

Lemma valid_numbers_digit (g : Grid) (r c : Z) (l : list Z) (d : Z) :
  get_valid_numbers g r c = Ret l → d ∈ l → 1 ≤ d ≤ 9.
Proof.
  unfold get_valid_numbers. intros Hl Hd.
  destruct (get_row g r); [|done..]. destruct (get_col g c); [|done..].
  destruct (get_box g r c); [|done..]. cbn in Hl. injection Hl as <-.
  apply list_elem_of_filter in Hd as [_ Hd].
  unfold range2 in Hd. apply elem_of_seqZ in Hd. lia.
Qed.

Lemma StronglySorted_filter_lt (P : Z → Prop) `{!∀ x, Decision (P x)}
    (l : list Z) :
  StronglySorted Z.lt l → StronglySorted Z.lt (filter P l).
Proof.
  induction 1 as [|x l Hl IH Hx]; [constructor|].
  rewrite filter_cons. case_decide; [|done].
  constructor; [done|]. apply Forall_forall. intros y Hy.
  apply list_elem_of_filter in Hy as [_ Hy].
  by apply (proj1 (Forall_forall _ _) Hx).
Qed.

Lemma digits_sorted : StronglySorted Z.lt digits.
Proof. vm_compute. repeat (constructor; [|repeat constructor; lia]). constructor. Qed.

(** C6: for a row and a column in [0,8], [get_valid_numbers] returns the
    digits 1..9, in ascending order, that occur neither in the row, nor in
    the column, nor in the 3x3 box of the cell. *)
Theorem get_valid_numbers_spec (g : Grid) (r c : Z) :
  wf_grid g → in_board r → in_board c →
  ∃ l, get_valid_numbers g r c = Ret l ∧
       StronglySorted Z.lt l ∧
       ∀ d, d ∈ l ↔
         1 ≤ d ≤ 9 ∧
         (∀ j, in_board j → cell g r j ≠ Ret d) ∧
         (∀ i, in_board i → cell g i c ≠ Ret d) ∧
         (∀ i j, in_board i → in_board j →
                 i `div` 3 = r `div` 3 → j `div` 3 = c `div` 3 →
                 cell g i j ≠ Ret d).
Proof.
  intros Hwf Hr Hc.
  destruct (get_valid_numbers_wf g r c Hwf Hr Hc) as (used & Hget & Hused).
  eexists. split; [exact Hget|]. split.
  { apply StronglySorted_filter_lt, digits_sorted. }
  intros d. rewrite list_elem_of_filter, elem_of_list_to_set, Hused.
  unfold digits, range2. rewrite elem_of_seqZ. split.
  - intros [Hnot Hd]. split; [lia|]. split_and!.
    + intros j Hj Hcell. apply Hnot. left. eauto.
    + intros i Hi Hcell. apply Hnot. right. left. eauto.
    + intros i j Hi Hj Hir Hjc Hcell. apply Hnot. right. right.
      exists i, j. eauto.
  - intros (Hd & Hrow & Hcol & Hbox). split; [|lia].
    intros [(j & Hj & Hcell)|[(i & Hi & Hcell)|(i & j & Hi & Hj & ? & ? & Hcell)]].
    + exact (Hrow j Hj Hcell).
    + exact (Hcol i Hi Hcell).
    + by apply (Hbox i j).
Qed.

(** ** Empty cells *)

Lemma elem_of_zeros_in_row (i j0 : Z) (row : list Z) (r c : Z) :
  (r, c) ∈ zeros_in_row i j0 row ↔
  r = i ∧ ∃ k : nat, c = j0 + Z.of_nat k ∧ row !! k = Some 0.
Proof.
  revert j0. induction row as [|v vs IH]; intros j0; cbn.
  { split; [inv 1|]. by intros (_ & k & _ & ?). }
  rewrite elem_of_app, IH. split.
  - intros [Hhd|(-> & k & -> & Hk)].
    + destruct (Z.eqb_spec v 0) as [->|]; [|inv Hhd].
      apply list_elem_of_singleton in Hhd. simplify_eq.
      split; [done|]. exists 0%nat. split; [lia|done].
    + split; [done|]. exists (S k). split; [lia|done].
  - intros (-> & [|k] & -> & Hk).
    + left. cbn in Hk. simplify_eq. cbn.
      replace (j0 + Z.of_nat 0) with j0 by lia. by apply list_elem_of_singleton.
    + right. split; [done|]. exists k. split; [lia|done].
Qed.

Lemma elem_of_zeros_from (i0 : Z) (g : Grid) (r c : Z) :
  (r, c) ∈ zeros_from i0 g ↔
  ∃ (a b : nat) (row : list Z),
    r = i0 + Z.of_nat a ∧ c = Z.of_nat b ∧ g !! a = Some row ∧ row !! b = Some 0.
Proof.
  revert i0. induction g as [|row rows IH]; intros i0; cbn.
  { split; [inv 1|]. by intros (a & b & ? & _ & _ & ? & _). }
  rewrite elem_of_app, elem_of_zeros_in_row, IH. split.
  - intros [(-> & k & -> & Hk)|(a & b & row' & -> & -> & Ha & Hb)].
    + exists 0%nat, k, row. split_and!; [lia|lia|done..].
    + exists (S a), b, row'. split_and!; [lia|done..].
  - intros ([|a] & b & row' & -> & -> & Ha & Hb).
    + left. cbn in Ha. simplify_eq. split; [lia|]. exists b. split; [lia|done].
    + right. exists a, b, row'. split_and!; [lia|done..].
Qed.

Lemma elem_of_get_empty_cells (g : Grid) (r c : Z) :
  wf_grid g →
  (r, c) ∈ get_empty_cells g ↔ in_board r ∧ in_board c ∧ cell g r c = Ret 0.
Proof.
  intros Hwf. unfold get_empty_cells. rewrite elem_of_zeros_from. split.
  - intros (a & b & row & -> & -> & Ha & Hb).
    pose proof (lookup_lt_Some _ _ _ Ha) as Hla.
    pose proof (lookup_lt_Some _ _ _ Hb) as Hlb.
    destruct Hwf as [Hlen Hrows].
    pose proof (Forall_lookup_1 _ _ _ _ Hrows Ha) as Hrow. cbn in Hrow.
    unfold in_board. split_and!; [lia..|].
    unfold cell. rewrite (getitem_lookup g _ row); [|lia|].
    2: { replace (Z.to_nat (0 + Z.of_nat a)) with a by lia. done. }
    cbn. apply getitem_lookup; [lia|]. by rewrite Nat2Z.id.
  - intros (Hr & Hc & Hcell).
    destruct (wf_cell g r c) as (row & v & Hrow & Hv & Hcell'); [done..|].
    unfold in_board in *. exists (Z.to_nat r), (Z.to_nat c), row.
    split_and!; [lia|lia|done|congruence].
Qed.

Lemma length_zeros_in_row_insert (i j0 : Z) (row : list Z) (k : nat) (v old : Z) :
  row !! k = Some old →
  (length (zeros_in_row i j0 (<[k := v]> row)) + zero_count old =
   length (zeros_in_row i j0 row) + zero_count v)%nat.
Proof.
  revert j0 k. induction row as [|x xs IH]; intros j0 [|k] Hk; try done; simpl in *.
  - simplify_eq. rewrite !length_app. unfold zero_count.
    destruct (v =? 0), (old =? 0); simpl; lia.
  - rewrite !length_app. specialize (IH (j0 + 1) k Hk).
    destruct (x =? 0); simpl; lia.
Qed.

Lemma length_zeros_from_insert (i0 : Z) (g : Grid) (a b : nat)
    (row : list Z) (v old : Z) :
  g !! a = Some row → row !! b = Some old →
  (length (zeros_from i0 (<[a := <[b := v]> row]> g)) + zero_count old =
   length (zeros_from i0 g) + zero_count v)%nat.
Proof.
  revert i0 a. induction g as [|x xs IH]; intros i0 [|a] Ha Hb; try done; simpl in *.
  - simplify_eq. rewrite !length_app.
    pose proof (length_zeros_in_row_insert i0 0 row b v old Hb). lia.
  - rewrite !length_app. specialize (IH (i0 + 1) a Ha Hb). lia.
Qed.

(** ** Assignment to a cell *)

Lemma set_cell_wf (g : Grid) (i j v : Z) :
  wf_grid g → in_board i → in_board j →
  ∃ g', set_cell g i j v = Ret g' ∧ wf_grid g' ∧
        cell g' i j = Ret v ∧
        (∀ i' j', in_board i' → in_board j' → (i', j') ≠ (i, j) →
                  cell g' i' j' = cell g i' j') ∧
        (length (get_empty_cells g') + zero_count (val g i j) =
         length (get_empty_cells g) + zero_count v)%nat ∧
        set_cell g' i j (val g i j) = Ret g.
Proof.
  intros Hwf Hi Hj.
  destruct (wf_cell g i j) as (row & old & Hrow & Hold & Hcell); [done..|].
  pose proof Hwf as [Hlen Hrows].
  pose proof (Forall_lookup_1 _ _ _ _ Hrows Hrow) as Hlrow. cbn in Hlrow.
  assert (Hval : val g i j = old) by (unfold val; by rewrite Hcell).
  unfold in_board in *.
  assert (Hset : ∀ (g0 : Grid) row0 w, length g0 = 9%nat → length row0 = 9%nat →
            g0 !! Z.to_nat i = Some row0 →
            set_cell g0 i j w =
              Ret (<[Z.to_nat i := <[Z.to_nat j := w]> row0]> g0)).
  { intros g0 row0 w Hl0 Hl1 Hr0. unfold set_cell.
    rewrite (getitem_lookup g0 i row0) by (done || lia). cbn.
    rewrite setitem_nonneg by lia. cbn. apply setitem_nonneg. lia. }
  set (g' := <[Z.to_nat i := <[Z.to_nat j := v]> row]> g).
  assert (Hwf' : wf_grid g').
  { unfold g'. split; [by rewrite length_insert|].
    apply Forall_insert; [done|]. by rewrite length_insert. }
  assert (Hrow' : g' !! Z.to_nat i = Some (<[Z.to_nat j := v]> row)).
  { apply list_lookup_insert_eq. lia. }
  exists g'. split_and!.
  - by apply Hset.
  - done.
  - unfold cell. rewrite (getitem_lookup g' i _ ltac:(lia) Hrow'). cbn.
    apply getitem_lookup; [lia|]. apply list_lookup_insert_eq. lia.
  - intros i' j' Hi' Hj' Hne.
    destruct (wf_cell g i' j') as (r1 & v1 & Hr1 & Hv1 & ->); [done..|].
    destruct (decide (i' = i)) as [->|Hii].
    + assert (j' ≠ j) by congruence. simplify_eq.
      unfold cell. rewrite (getitem_lookup g' i _ ltac:(lia) Hrow'). cbn.
      apply getitem_lookup; [lia|].
      rewrite list_lookup_insert_ne by lia. done.
    + unfold cell. rewrite (getitem_lookup g' i' r1); [|lia|].
      2: { unfold g'. rewrite list_lookup_insert_ne by lia. done. }
      cbn. apply getitem_lookup; [lia|done].
  - rewrite Hval. unfold get_empty_cells. by apply length_zeros_from_insert.
  - rewrite Hval.
    rewrite (Hset g' _ old (proj1 Hwf') ltac:(by rewrite length_insert) Hrow').
    f_equal. unfold g'.
    rewrite list_insert_insert_eq, list_insert_insert_eq.
    rewrite (list_insert_id row) by done. by apply list_insert_id.
Qed.

(** ** Cell selection *)

Lemma min_scan_spec {A} (key : A → result Z) (kf : A → Z) (rest : list A) :
  ∀ best,
  (∀ y, y ∈ best :: rest → key y = Ret (kf y)) →
  ∃ m pre post,
    min_scan key best (kf best) rest = Ret m ∧
    best :: rest = pre ++ m :: post ∧
    (∀ y, y ∈ pre → kf m < kf y) ∧
    (∀ y, y ∈ post → kf m ≤ kf y).
Proof.
  induction rest as [|x xs IH]; intros best Hkey.
  { exists best, [], []. split_and!; [done..| |]; intros y Hy; inv Hy. }
  simpl. rewrite (Hkey x) by (right; left). simpl.
  destruct (Z.ltb_spec (kf x) (kf best)) as [Hlt|Hge].
  - destruct (IH x) as (m & pre & post & Hm & Hsplit & Hpre & Hpost).
    { intros y Hy. apply Hkey. by right. }
    exists m, (best :: pre), post. split_and!; [done|by rewrite Hsplit|..|done].
    intros y [->|Hy]%elem_of_cons; [|by apply Hpre].
    destruct pre as [|p pre]; simplify_eq/=; [done|].
    specialize (Hpre p ltac:(left)). lia.
  - destruct (IH best) as (m & pre & post & Hm & Hsplit & Hpre & Hpost).
    { intros y Hy. apply Hkey. apply elem_of_cons in Hy as [->|Hy]; [left|].
      by do 2 right. }
    destruct pre as [|p pre]; simplify_eq/=.
    + exists m, [], (x :: post). split_and!; [done..| |].
      * intros y Hy; inv Hy.
      * intros y [->|Hy]%elem_of_cons; [done|by apply Hpost].
    + exists m, (p :: x :: pre), post. split_and!; [done..| |done].
      intros y [->|[->|Hy]%elem_of_cons]%elem_of_cons.
      * apply Hpre. left.
      * specialize (Hpre p ltac:(left)). lia.
      * apply Hpre. by right.
Qed.

Lemma candidate_count_wf (g : Grid) (x : Z * Z) :
  wf_grid g → in_board x.1 → in_board x.2 →
  ∃ n, has_candidates g x n ∧ candidate_count g x = Ret (Z.of_nat n).
Proof.
  intros Hwf H1 H2.
  destruct (get_valid_numbers_wf g x.1 x.2) as (used & Hget & _); [done..|].
  eexists. split; [eexists; split; [exact Hget|done]|].
  unfold candidate_count. by rewrite Hget.
Qed.

Lemma has_candidates_count (g : Grid) (x : Z * Z) (n : nat) :
  has_candidates g x n → the 0 (candidate_count g x) = Z.of_nat n.
Proof. intros (l & Hl & <-). unfold candidate_count. by rewrite Hl. Qed.

(** What [get_min_remaining_values_cell] returns on a 9x9 grid. *)
Lemma mrv_cases (g : Grid) :
  wf_grid g →
  (get_empty_cells g = [] ∧ get_min_remaining_values_cell g = Ret None) ∨
  (∃ x pre post n,
     get_min_remaining_values_cell g = Ret (Some x) ∧
     get_empty_cells g = pre ++ x :: post ∧
     has_candidates g x n ∧
     (∀ y, y ∈ pre → ∃ m, has_candidates g y m ∧ (n < m)%nat) ∧
     (∀ y, y ∈ post → ∃ m, has_candidates g y m ∧ (n ≤ m)%nat)).
Proof.
  intros Hwf. unfold get_min_remaining_values_cell.
  destruct (get_empty_cells g) as [|x0 xs] eqn:Hempty; [by left|right].
  assert (Hin : ∀ y, y ∈ x0 :: xs → in_board y.1 ∧ in_board y.2).
  { intros [r c] Hy. rewrite <- Hempty in Hy.
    by apply (elem_of_get_empty_cells g r c Hwf) in Hy as (? & ? & _). }
  assert (Hcount : ∀ y, y ∈ x0 :: xs →
            ∃ n, has_candidates g y n ∧ candidate_count g y = Ret (Z.of_nat n)).
  { intros y [??]%Hin. by apply candidate_count_wf. }
  set (kf := λ y, the 0 (candidate_count g y)).
  assert (Hkey : ∀ y, y ∈ x0 :: xs → candidate_count g y = Ret (kf y)).
  { intros y (n & _ & Hn)%Hcount. by apply the_Ret with (Z.of_nat n). }
  destruct (min_scan_spec (candidate_count g) kf xs x0 Hkey)
    as (m & pre & post & Hm & Hsplit & Hpre & Hpost).
  assert (Hmin : m ∈ x0 :: xs).
  { rewrite Hsplit. apply elem_of_app. right. left. }
  destruct (Hcount m Hmin) as (n & Hn & _).
  exists m, pre, post, n. split_and!; [|done|done|..].
  - unfold py_min. rewrite (Hkey x0) by left. simpl. by rewrite Hm.
  - intros y Hy. destruct (Hcount y) as (k & Hk & _).
    { rewrite Hsplit. apply elem_of_app. by left. }
    exists k. split; [done|]. specialize (Hpre y Hy). unfold kf in Hpre.
    rewrite (has_candidates_count g m n), (has_candidates_count g y k) in Hpre
      by done. lia.
  - intros y Hy. destruct (Hcount y) as (k & Hk & _).
    { rewrite Hsplit. apply elem_of_app. right. by right. }
    exists k. split; [done|]. specialize (Hpost y Hy). unfold kf in Hpost.
    rewrite (has_candidates_count g m n), (has_candidates_count g y k) in Hpost
      by done. lia.
Qed.

(** C7: [get_min_remaining_values_cell] returns [None] exactly when there
    is no empty cell; otherwise it returns the first cell, in the order of
    [get_empty_cells], among the empty cells with the fewest candidates. *)
Theorem get_min_remaining_values_cell_spec (g : Grid) :
  wf_grid g →
  (get_min_remaining_values_cell g = Ret None ↔ get_empty_cells g = []) ∧
  (get_empty_cells g ≠ [] →
   ∃ x pre post n,
     get_min_remaining_values_cell g = Ret (Some x) ∧
     get_empty_cells g = pre ++ x :: post ∧
     has_candidates g x n ∧
     (∀ y, y ∈ pre → ∃ m, has_candidates g y m ∧ (n < m)%nat) ∧
     (∀ y, y ∈ post → ∃ m, has_candidates g y m ∧ (n ≤ m)%nat)).
Proof.
  intros Hwf.
  destruct (mrv_cases g Hwf)
    as [[Hempty Hnone]|(x & pre & post & n & Hsome & Hsplit & Hrest)].
  - split; [done|]. by intros [].
  - split.
    + rewrite Hsome, Hsplit. split; [done|]. by intros ?%app_nil_r_inv.
    + intros _. by exists x, pre, post, n.
Qed.

(** ** Search *)

Lemma try_candidates_spec (solve_self : Grid → result (bool * Grid))
    (row col : Z) (g : Grid) (nums : list Z) :
  wf_grid g → in_board row → in_board col → val g row col = 0 →
  (∀ d, d ∈ nums → d ≠ 0) →
  (∀ g1, wf_grid g1 →
         (length (get_empty_cells g1) < length (get_empty_cells g))%nat →
         solve_post g1 (solve_self g1)) →
  solve_post g (try_candidates solve_self row col nums g).
Proof.
  intros Hwf Hrow Hcol Hzero Hnums Hself.
  induction nums as [|num nums IH].
  { exists false, g. by split_and!. }
  destruct (set_cell_wf g row col num Hwf Hrow Hcol)
    as (g1 & Hset & Hwf1 & _ & _ & Hlen & Hback).
  rewrite Hzero in Hlen, Hback.
  assert (Hnum : num ≠ 0) by (apply Hnums; left).
  assert (length (get_empty_cells g1) < length (get_empty_cells g))%nat.
  { unfold zero_count in Hlen. simpl in Hlen.
    destruct (Z.eqb_spec num 0); [done|lia]. }
  destruct (Hself g1) as (b & g2 & Hres & Hwf2 & Hfalse & Htrue); [done..|].
  simpl. rewrite Hset. simpl. rewrite Hres. simpl.
  destruct b.
  - exists true, g2. by split_and!.
  - rewrite (Hfalse eq_refl), Hback. simpl.
    apply IH. intros d Hd. apply Hnums. by right.
Qed.

Lemma solve_rec_spec (fuel : nat) (g : Grid) :
  wf_grid g → (length (get_empty_cells g) < fuel)%nat →
  solve_post g (solve_rec fuel g).
Proof.
  revert g. induction fuel as [|fuel IH]; intros g Hwf Hfuel; [lia|].
  simpl.
  destruct (mrv_cases g Hwf)
    as [[Hempty ->]|([row col] & pre & post & n & -> & Hsplit & _)]; simpl.
  { exists true, g. by split_and!. }
  assert (Hin : (row, col) ∈ get_empty_cells g).
  { rewrite Hsplit. apply elem_of_app. right. left. }
  apply elem_of_get_empty_cells in Hin as (Hrow & Hcol & Hcell); [|done].
  destruct (get_valid_numbers_wf g row col Hwf Hrow Hcol) as (used & Hget & _).
  rewrite Hget. simpl. apply try_candidates_spec; [done..| | |].
  - unfold val. by rewrite Hcell.
  - intros d Hd. pose proof (valid_numbers_digit g row col _ d Hget Hd). lia.
  - intros g1 Hwf1 Hlt. apply IH; [done|lia].
Qed.

(** The budget of nested calls does not change the outcome once it is
    enough. *)
Lemma try_candidates_mono (s1 s2 : Grid → result (bool * Grid))
    (row col : Z) (nums : list Z) :
  (∀ g r, s1 g = Ret r → s2 g = Ret r) →
  ∀ g r, try_candidates s1 row col nums g = Ret r →
         try_candidates s2 row col nums g = Ret r.
Proof.
  intros Hs. induction nums as [|num nums IH]; intros g r; [done|].
  simpl. destruct (set_cell g row col num) as [g1| |]; [|done..]. simpl.
  destruct (s1 g1) as [[ok g2]| |] eqn:H1; [|done..].
  rewrite (Hs _ _ H1). simpl. destruct ok; [done|].
  destruct (set_cell g2 row col 0) as [g3| |]; [|done..]. simpl. apply IH.
Qed.

Lemma solve_rec_mono (fuel fuel' : nat) (g : Grid) (r : bool * Grid) :
  (fuel ≤ fuel')%nat → solve_rec fuel g = Ret r → solve_rec fuel' g = Ret r.
Proof.
  revert fuel' g r. induction fuel as [|fuel IH]; intros fuel' g r Hle; [done|].
  destruct fuel' as [|fuel']; [lia|]. simpl.
  destruct (get_min_remaining_values_cell g) as [[[row col]|]| |]; [|done..].
  simpl. destruct (get_valid_numbers g row col) as [nums| |]; [|done..].
  simpl. apply try_candidates_mono. intros g1 r1. apply IH. lia.
Qed.

(** C10: on every 9x9 grid [solve] returns a boolean and raises nothing;
    the nested calls are never deeper than the number of empty cells plus
    one, each of them having one empty cell less than its caller. *)
Theorem solve_terminates (g : Grid) :
  wf_grid g →
  ∃ b g', solve g = Ret (b, g') ∧
          ∀ fuel, (length (get_empty_cells g) < fuel)%nat →
                  solve_rec fuel g = Ret (b, g').
Proof.
  intros Hwf.
  destruct (solve_rec_spec (S (length (get_empty_cells g))) g Hwf)
    as (b & g' & Hres & _); [lia|].
  exists b, g'. split; [done|].
  intros fuel Hfuel. by apply solve_rec_mono with (S (length (get_empty_cells g))).
Qed.

(** C5: when [solve] returns false, the grid is cell for cell the grid it
    was called on. *)
Theorem solve_false_restores (g g' : Grid) :
  wf_grid g → solve g = Ret (false, g') → g' = g.
Proof.
  intros Hwf Hres.
  destruct (solve_rec_spec (S (length (get_empty_cells g))) g Hwf)
    as (b & g2 & Hres' & _ & Hfalse & _); [lia|].
  unfold solve in Hres. rewrite Hres' in Hres. simplify_eq. by apply Hfalse.
Qed.

(** ** The solved test *)

Lemma valid_numbers_never_own (g : Grid) (r c : Z) (l : list Z) (v : Z) :
  wf_grid g → in_board r → in_board c →
  get_valid_numbers g r c = Ret l → cell g r c = Ret v → l ≠ [v].
Proof.
  intros Hwf Hr Hc Hl Hv ->.
  destruct (get_valid_numbers_wf g r c Hwf Hr Hc) as (used & Hget & Hused).
  rewrite Hget in Hl. injection Hl as Hl.
  assert (Hin : v ∈ filter (λ num, num ∉ (list_to_set used : gset Z)) digits).
  { rewrite Hl. left. }
  apply list_elem_of_filter in Hin as [Hnot _]. apply Hnot.
  apply elem_of_list_to_set, Hused. left. by exists c.
Qed.

Lemma is_solved_false (g : Grid) : wf_grid g → is_solved g = Ret false.
Proof.
  intros Hwf. unfold is_solved. case_bool_decide; [|done].
  change all_cells with ((0, 0) :: tail all_cells). simpl.
  assert (H0 : in_board 0) by (unfold in_board; lia).
  destruct (get_valid_numbers_wf g 0 0 Hwf H0 H0) as (used & Hget & _).
  destruct (wf_cell g 0 0 Hwf H0 H0) as (row & v & _ & _ & Hcell).
  rewrite Hget. simpl. rewrite Hcell. simpl.
  rewrite bool_decide_eq_false_2; [done|].
  by apply (valid_numbers_never_own g 0 0).
Qed.

(** ** Generation *)

Lemma sample_keeps (g : Grid) (i j temp : Z) (n : nat) :
  wf_grid g → in_board i → in_board j → sample n 0 g i j temp = Ret (0, g).
Proof.
  intros Hwf Hi Hj. induction n as [|n IH]; [done|].
  change (sample (S n) 0 g i j temp) with
    (temp_grid ← set_cell g i j temp ;
     '(_, temp_grid) ← solve temp_grid ;
     solved ← is_solved temp_grid ;
     let count := if solved : bool then 0 + 1 else 0 in
     if 1 <? count then grid ← set_cell g i j temp ; Ret (count, grid)
     else sample n count g i j temp).
  destruct (set_cell_wf g i j temp Hwf Hi Hj) as (tg & Hset & Hwft & _).
  rewrite Hset. simpl.
  destruct (solve_rec_spec (S (length (get_empty_cells tg))) tg Hwft)
    as (b & tg' & Hres & Hwft' & _); [lia|].
  change (solve tg) with (solve_rec (S (length (get_empty_cells tg))) tg).
  rewrite Hres. simpl.
  rewrite (is_solved_false tg' Hwft'). simpl. exact IH.
Qed.

(** C2: [is_solved] returns false on every 9x9 grid, the candidates of a
    cell never being the list of its own value; so the sampling loop of
    [__create_board] ends with [count] at 0 and the cleared cell still
    cleared. *)
Theorem is_solved_never_true (g : Grid) :
  wf_grid g →
  is_solved g = Ret false ∧
  (∀ r c l v, in_board r → in_board c →
     get_valid_numbers g r c = Ret l → cell g r c = Ret v → l ≠ [v]) ∧
  (∀ i j temp, in_board i → in_board j →
     sample 10 0 g i j temp = Ret (0, g)).
Proof.
  intros Hwf. split_and!.
  - by apply is_solved_false.
  - intros r c l v Hr Hc. by apply valid_numbers_never_own.
  - intros i j temp Hi Hj. by apply sample_keeps.
Qed.

Lemma val_cell (g : Grid) (i j v : Z) : cell g i j = Ret v → val g i j = v.
Proof. unfold val. by intros ->. Qed.

(** The removal loop clears the cells in order until the target is met,
    when each of them is filled and they are pairwise distinct. *)
Lemma remove_cells_spec (target : nat) (cells : list (Z * Z)) :
  ∀ g, wf_grid g → NoDup cells →
  (∀ x, x ∈ cells → in_board x.1 ∧ in_board x.2 ∧ val g x.1 x.2 ≠ 0) →
  (length (get_empty_cells g) < target)%nat →
  (target ≤ length (get_empty_cells g) + length cells)%nat →
  ∃ g', remove_cells (Z.of_nat target) cells g = Ret g' ∧ wf_grid g' ∧
        length (get_empty_cells g') = target ∧
        ∀ i j, in_board i → in_board j →
          cell g' i j =
            Ret (if decide ((i, j) ∈ take (target - length (get_empty_cells g)) cells)
                 then 0 else val g i j).
Proof.
  induction cells as [|[i j] cells IH]; intros g Hwf Hnodup Hcells Hlt Hle.
  { simpl in Hle. lia. }
  destruct (Hcells (i, j)) as (Hi & Hj & Hfilled); [left|]. simpl in Hi, Hj, Hfilled.
  apply NoDup_cons in Hnodup as [Hnotin Hnodup].
  destruct (set_cell_wf g i j 0 Hwf Hi Hj)
    as (g1 & Hset & Hwf1 & Hnew & Hother & Hlen & _).
  assert (Hlen1 : length (get_empty_cells g1) = S (length (get_empty_cells g))).
  { unfold zero_count in Hlen. simpl in Hlen.
    destruct (Z.eqb_spec (val g i j) 0); [done|lia]. }
  simpl. rewrite (cell_val g i j) by done. simpl. rewrite Hset. simpl.
  rewrite (sample_keeps g1 i j _ 10) by done. simpl.
  assert (Htake : ∀ k, take (S k) ((i, j) :: cells) = (i, j) :: take k cells)
    by done.
  destruct (Z.leb_spec (Z.of_nat target) (Z.of_nat (length (get_empty_cells g1))))
    as [Hstop|Hgo].
  - exists g1. split_and!; [done|done|lia|].
    intros i' j' Hi' Hj'.
    replace (target - length (get_empty_cells g))%nat with 1%nat by lia.
    rewrite Htake, take_0. case_decide as Hin.
    + apply list_elem_of_singleton in Hin. by simplify_eq.
    + rewrite Hother; [by apply cell_val|done..|].
      intros [= -> ->]. apply Hin. left.
  - destruct (IH g1) as (g' & Hrem & Hwf' & Hlen' & Hcell'); [done|done| |lia| |].
    { intros x Hx. destruct (Hcells x) as (Hx1 & Hx2 & Hxv); [by right|].
      split_and!; [done..|]. destruct x as [i' j']. simpl in *.
      rewrite (val_cell g1 i' j' (val g i' j')); [done|].
      rewrite Hother; [by apply cell_val|done..|]. by intros [= -> ->]. }
    { simpl in Hle. lia. }
    exists g'. split_and!; [done..|]. intros i' j' Hi' Hj'.
    rewrite Hcell' by done. f_equal.
    replace (target - length (get_empty_cells g))%nat
      with (S (target - length (get_empty_cells g1)))%nat by lia.
    rewrite Htake. destruct (decide ((i', j') = (i, j))) as [Heq|Hne].
    + simplify_eq. rewrite (val_cell g1 i j 0 Hnew).
      rewrite (decide_True (P := _ ∈ _ :: _)) by left. by case_decide.
    + rewrite (val_cell g1 i' j' (val g i' j')).
      2: { rewrite Hother; [by apply cell_val|done..]. }
      case_decide as Hin.
      * rewrite decide_True; [done|by right].
      * rewrite decide_False; [done|].
        intros [?|?]%elem_of_cons; [by apply Hne|by apply Hin].
Qed.

Lemma first_solution_wf : wf_grid first_solution.
Proof. split; [done|]. by repeat constructor. Qed.

Lemma empty_grid_solved : solve empty_grid = Ret (true, first_solution).
Proof. vm_compute. reflexivity. Qed.

Lemma all_cells_NoDup : NoDup all_cells.
Proof. apply (bool_decide_unpack _). vm_compute. exact I. Qed.

Lemma all_cells_filled :
  Forall (λ x : Z * Z, in_board x.1 ∧ in_board x.2 ∧ val first_solution x.1 x.2 ≠ 0)
         all_cells.
Proof. apply (bool_decide_unpack _). vm_compute. exact I. Qed.

Lemma first_solution_no_empty : get_empty_cells first_solution = [].
Proof. reflexivity. Qed.

Lemma group_ok_Ret (m : result (list Z)) :
  group_ok m → ∃ l, m = Ret l ∧ l ≡ₚ digits.
Proof. destruct m as [l| |]; [|done..]. intros Hl. by exists l. Qed.

Lemma in_board_range (i : Z) : in_board i ↔ i ∈ range BOARD_SIZE.
Proof. rewrite elem_of_range. unfold in_board, BOARD_SIZE. lia. Qed.

Lemma elem_of_all_cells (i j : Z) : (i, j) ∈ all_cells ↔ in_board i ∧ in_board j.
Proof.
  unfold all_cells. rewrite list_elem_of_bind, !in_board_range. split.
  - intros (a & Hab & Ha). apply list_elem_of_bind in Hab as (b & Hab & Hb).
    apply list_elem_of_singleton in Hab. by simplify_eq.
  - intros [Hi Hj]. exists i. split; [|done].
    apply list_elem_of_bind. exists j. split; [|done].
    by apply list_elem_of_singleton.
Qed.

Lemma complete_check_sound (g : Grid) : complete_check g → complete g.
Proof.
  intros (Hrows & Hcols & Hboxes). split_and!.
  - intros r Hr%in_board_range.
    apply group_ok_Ret, (proj1 (Forall_forall _ _) Hrows r Hr).
  - intros c Hc%in_board_range.
    apply group_ok_Ret, (proj1 (Forall_forall _ _) Hcols c Hc).
  - intros r c Hr Hc.
    apply group_ok_Ret, (proj1 (Forall_forall _ _) Hboxes (r, c)).
    by apply elem_of_all_cells.
Qed.

Lemma first_solution_complete : complete first_solution.
Proof.
  apply complete_check_sound, (bool_decide_unpack _). vm_compute. exact I.
Qed.

(** Two 9x9 grids with the same cells are the same grid. *)
Lemma grid_ext (g1 g2 : Grid) :
  wf_grid g1 → wf_grid g2 →
  (∀ i j, in_board i → in_board j → cell g1 i j = cell g2 i j) →
  g1 = g2.
Proof.
  intros Hwf1 Hwf2 Hcells. apply list_eq. intros a.
  destruct (decide (a < 9)%nat) as [Ha|Ha].
  2: { rewrite !lookup_ge_None_2; [done|destruct Hwf2; lia|destruct Hwf1; lia]. }
  assert (Hia : in_board (Z.of_nat a)) by (unfold in_board; lia).
  destruct (wf_row g1 _ Hwf1 Hia) as (r1 & Hr1 & Hl1).
  destruct (wf_row g2 _ Hwf2 Hia) as (r2 & Hr2 & Hl2).
  rewrite Nat2Z.id in Hr1, Hr2. rewrite Hr1, Hr2. f_equal.
  apply list_eq. intros b.
  destruct (decide (b < 9)%nat) as [Hb|Hb].
  2: { rewrite !lookup_ge_None_2; [done|lia..]. }
  assert (Hib : in_board (Z.of_nat b)) by (unfold in_board; lia).
  specialize (Hcells _ _ Hia Hib).
  destruct (wf_cell g1 _ _ Hwf1 Hia Hib) as (r1' & v1 & Hr1' & Hv1 & Hc1).
  destruct (wf_cell g2 _ _ Hwf2 Hia Hib) as (r2' & v2 & Hr2' & Hv2 & Hc2).
  rewrite Nat2Z.id in Hr1', Hr2', Hv1, Hv2. simplify_eq. congruence.
Qed.

Lemma empty_grid_wf : wf_grid empty_grid.
Proof. split; [done|]. by repeat constructor. Qed.

(** C1: on the 9x9 grid whose 81 cells are 0, [solve] returns true and
    leaves a grid in which every row, every column and every 3x3 box is a
    permutation of 1..9. *)
Theorem solve_empty (g : Grid) :
  wf_grid g →
  (∀ i j, in_board i → in_board j → cell g i j = Ret 0) →
  ∃ g', solve g = Ret (true, g') ∧ complete g'.
Proof.
  intros Hwf Hzero.
  assert (g = empty_grid) as ->.
  { apply grid_ext; [done|apply empty_grid_wf|].
    intros i j Hi Hj.
    rewrite Hzero, (cell_val empty_grid i j empty_grid_wf) by done. f_equal.
    assert (Hall : Forall (λ x : Z * Z, 0 = val empty_grid x.1 x.2) all_cells).
    { apply (bool_decide_unpack _). vm_compute. exact I. }
    apply (proj1 (Forall_forall _ _) Hall (i, j)). by apply elem_of_all_cells. }
  exists first_solution. split; [apply empty_grid_solved|apply first_solution_complete].
Qed.

(** C3: on the complete, conflict-free grid that [solve] builds from the
    empty grid, [is_solved] returns false. *)
Theorem is_solved_rejects_solution :
  get_empty_cells first_solution = [] ∧ complete first_solution ∧
  is_solved first_solution = Ret false.
Proof.
  split_and!.
  - reflexivity.
  - apply first_solution_complete.
  - apply is_solved_false, first_solution_wf.
Qed.

Lemma Board_init_unknown (shuffle : list (Z * Z) → list (Z * Z)) (label : string) :
  difficulty_values !! label = None →
  Board_init shuffle label = Raise (KeyError label).
Proof.
  intros Hnone. unfold Board_init, create_board, dict_getitem.
  simpl. rewrite empty_grid_solved. simpl. by rewrite Hnone.
Qed.

(** C9: whatever the shuffle, [Board(label)] with a label that is none of
    easy, medium, hard and expert is rejected: construction ends in an
    error, the [KeyError] of the lookup in [difficulty_values], and returns
    no board. *)
Theorem unknown_difficulty_rejected (shuffle : list (Z * Z) → list (Z * Z))
    (label : string) :
  label ∉ ["easy"; "medium"; "hard"; "expert"] →
  Board_init shuffle label = Raise (KeyError label) ∧
  ∀ g, Board_init shuffle label ≠ Ret g.
Proof.
  intros Hlabel.
  assert (Hnone : difficulty_values !! label = None).
  { unfold difficulty_values.
    rewrite !lookup_insert_ne, lookup_singleton_ne; [done|..];
      intros <-; apply Hlabel; set_solver. }
  rewrite (Board_init_unknown shuffle label Hnone). split; [done|].
  intros g Hg. discriminate Hg.
Qed.

(** C4: whatever the shuffle, [Board("easy")] is built from the solved
    grid by clearing the first 30 cells of the shuffled order, the loop
    stopping there with 30 empty cells. *)
Theorem create_board_easy (shuffle : list (Z * Z) → list (Z * Z)) :
  shuffle all_cells ≡ₚ all_cells →
  ∃ g, Board_init shuffle "easy" = Ret g ∧
       (30 ≤ length (get_empty_cells g))%nat ∧
       solve empty_grid = Ret (true, first_solution) ∧
       complete first_solution ∧
       ∀ i j, in_board i → in_board j →
         cell g i j =
           Ret (if decide ((i, j) ∈ take 30 (shuffle all_cells))
                then 0 else val first_solution i j).
Proof.
  intros Hperm.
  destruct (remove_cells_spec 30 (shuffle all_cells) first_solution)
    as (g & Hrem & Hwf & Hlen & Hcells).
  - apply first_solution_wf.
  - rewrite Hperm. apply all_cells_NoDup.
  - intros x Hx. rewrite Hperm in Hx.
    by apply (proj1 (Forall_forall _ _) all_cells_filled).
  - rewrite first_solution_no_empty. simpl. lia.
  - rewrite first_solution_no_empty, Hperm. simpl. lia.
  - exists g. split_and!.
    + unfold Board_init, create_board. simpl. rewrite empty_grid_solved. simpl.
      exact Hrem.
    + lia.
    + apply empty_grid_solved.
    + apply first_solution_complete.
    + intros i j Hi Hj. rewrite (Hcells i j Hi Hj).
      by rewrite first_solution_no_empty.
Qed.

(** ** Lists as objects *)

Lemma bind_Ret_inv {A B} (m : result A) (k : A → result B) (b : B) :
  m ≫= k = Ret b → ∃ a, m = Ret a ∧ k a = Ret b.
Proof. destruct m as [a| |]; [|done..]. intros Hk. by exists a. Qed.

Lemma mapM_Ret_inv {A B} (f : A → result B) (l : list A) (k : list B) :
  mapM f l = Ret k → Forall2 (λ x y, f x = Ret y) l k.
Proof.
  revert k. induction l as [|x l IH]; intros k Hk.
  { injection Hk as <-. constructor. }
  apply bind_Ret_inv in Hk as (y & Hy & Hk).
  apply bind_Ret_inv in Hk as (ys & Hys & Hk).
  injection Hk as <-. constructor; [done|]. by apply IH.
Qed.

Lemma mapM_Forall2 {A B} (f : A → result B) (l : list A) (k : list B) :
  Forall2 (λ x y, f x = Ret y) l k → mapM f l = Ret k.
Proof.
  induction 1 as [|x y l k Hxy _ IH]; [done|].
  change (mapM f (x :: l)) with (y ← f x ; ys ← mapM f l ; Ret (y :: ys)).
  by rewrite Hxy, IH.
Qed.

Section heap.
Import Obj.
Context (h : heap) (self : Board) (g : Grid).
Hypothesis Hread : read h self = Ret g.
Hypothesis Hwf : wf_grid g.

(** The objects behind a board that reads as [g]. *)
Lemma read_rows :
  ∃ rows, h !! grid self = Some rows ∧
          Forall2 (λ v row, ints h v = Ret row) rows g.
Proof using Hread.
  unfold read in Hread. simpl in Hread.
  destruct (h !! grid self) as [rows|]; [|done].
  exists rows. split; [done|]. by apply mapM_Ret_inv.
Qed.

Lemma ints_inv (v : value) (row : list Z) :
  ints h v = Ret row →
  ∃ l xs, v = Ref l ∧ h !! l = Some xs ∧ xs = Int <$> row.
Proof.
  unfold ints. destruct v as [n|l]; [done|]. simpl.
  destruct (h !! l) as [xs|] eqn:Hl; [|done]. simpl.
  intros Hxs%mapM_Ret_inv. exists l, xs. split_and!; [done..|].
  clear Hl. induction Hxs as [|x n xs row Hx _ IH]; [done|].
  destruct x; [|done]. injection Hx as ->. by rewrite IH.
Qed.

Lemma ints_fmap (h0 : heap) (l : loc) (row : list Z) :
  h0 !! l = Some (Int <$> row) → ints h0 (Ref l) = Ret row.
Proof.
  intros Hl. unfold ints. simpl. rewrite Hl. simpl.
  apply mapM_Forall2. clear Hl. induction row; simpl; by constructor.
Qed.

(** The object of row [i] and its content. *)
Lemma row_object (i : Z) :
  in_board i →
  ∃ rows l row,
    h !! grid self = Some rows ∧ rows !! Z.to_nat i = Some (Ref l) ∧
    g !! Z.to_nat i = Some row ∧ length row = 9%nat ∧
    h !! l = Some (Int <$> row) ∧
    index h (Ref (grid self)) i = Ret (Ref l).
Proof using Hread Hwf.
  intros Hi. destruct read_rows as (rows & Hrows & Hall).
  destruct (wf_row g i Hwf Hi) as (row & Hrow & Hlen).
  destruct (Forall2_lookup_r _ _ _ _ _ Hall Hrow) as (v & Hv & Hints).
  apply ints_inv in Hints as (l & xs & -> & Hl & ->).
  exists rows, l, row. split_and!; [done..|].
  unfold index. simpl. rewrite Hrows. simpl.
  apply getitem_lookup; [apply Hi|done].
Qed.

Lemma cell_object (i j : Z) :
  in_board i → in_board j →
  (r ← index h (Ref (grid self)) i ; index h r j) = Ret (Int (val g i j)).
Proof using Hread Hwf.
  intros Hi Hj.
  destruct (row_object i Hi) as (rows & l & row & _ & _ & Hrow & Hlen & Hl & ->).
  simpl. unfold index. simpl. rewrite Hl. simpl.
  destruct (wf_cell g i j Hwf Hi Hj) as (row' & v & Hrow' & Hv & Hcell).
  simplify_eq. rewrite (val_cell g i j v Hcell).
  apply getitem_lookup; [apply Hj|]. by rewrite list_lookup_fmap, Hv.
Qed.

(** A new object does not change what the board reads as. *)
Lemma read_fresh (l : loc) (xs : list value) :
  h !! l = None → read (<[l := xs]> h) self = Ret g.
Proof using Hread.
  intros Hl. destruct read_rows as (rows & Hrows & Hall).
  unfold read. simpl. rewrite lookup_insert_ne by congruence.
  rewrite Hrows. simpl. apply mapM_Forall2.
  eapply Forall2_impl; [exact Hall|]. intros v row Hints. simpl in Hints.
  apply ints_inv in Hints as (l' & ys & -> & Hl' & ->).
  apply ints_fmap. rewrite lookup_insert_ne by congruence. done.
Qed.

End heap.

(** C8: [get_col] and [get_row] return the 9 values of the column and of
    the row.  The list that [get_col] returns is a new object: whatever is
    stored in it afterwards, the grid of the board stays as it is.  The
    list that [get_row] returns is the row object of the grid itself. *)
Theorem get_row_get_col_values (h : Obj.heap) (self : Obj.Board) (g : Grid)
    (r c : Z) :
  Obj.read h self = Ret g → wf_grid g → in_board r → in_board c →
  (∃ h' l col,
     Obj.get_col h self c = Ret (h', Obj.Ref l) ∧
     get_col g c = Ret col ∧ length col = 9%nat ∧
     Obj.ints h' (Obj.Ref l) = Ret col ∧
     ∀ xs, Obj.read (<[l := xs]> h') self = Ret g) ∧
  (∃ rows l row,
     Obj.get_row h self r = Ret (Obj.Ref l) ∧
     get_row g r = Ret row ∧ length row = 9%nat ∧
     Obj.ints h (Obj.Ref l) = Ret row ∧
     h !! Obj.grid self = Some rows ∧ rows !! Z.to_nat r = Some (Obj.Ref l)).
Proof.
  intros Hread Hwf Hr Hc. split.
  - set (col := (λ i, val g i c) <$> range BOARD_SIZE).
    set (l := fresh (dom h)).
    assert (Hl : h !! l = None).
    { apply not_elem_of_dom. apply is_fresh. }
    exists (<[l := Obj.Int <$> col]> h), l, col. split_and!.
    + unfold Obj.get_col.
      rewrite (mapM_Ret _ (λ i, Obj.Int (val g i c))).
      * reflexivity.
      * intros i Hi%in_board_range. by apply (cell_object h self g).
    + by apply get_col_wf.
    + unfold col. by rewrite length_fmap.
    + apply ints_fmap. apply lookup_insert_eq.
    + intros xs. rewrite insert_insert_eq. by apply read_fresh.
  - destruct (row_object h self g Hread Hwf r Hr)
      as (rows & l & row & Hrows & Hrl & Hrow & Hlen & Hl & Hindex).
    exists rows, l, row. split_and!; [done| |done| |done..].
    + apply getitem_lookup; [apply Hr|done].
    + by apply ints_fmap.
Qed.

(** C8, as stated, fails for [get_row]: storing 5 in the first place of
    the list returned for row 0 changes the grid of the board. *)
Lemma get_row_not_by_value :
  ¬ ∀ (h h' : Obj.heap) (self : Obj.Board) (g : Grid) (r i : Z)
      (v x : Obj.value),
      Obj.read h self = Ret g → wf_grid g → in_board r →
      Obj.get_row h self r = Ret v →
      Obj.assign h v i x = Ret h' →
      Obj.read h' self = Ret g.
Proof.
  intros Hclaim.
  pose (hb := Obj.new_board ∅ first_solution).
  pose (v := the (Obj.Int 0) (Obj.get_row hb.1 hb.2 0)).
  pose (h' := the ∅ (Obj.assign hb.1 v 0 (Obj.Int 5))).
  specialize (Hclaim hb.1 h' hb.2 first_solution 0 0 v (Obj.Int 5)).
  assert (Hread : Obj.read h' hb.2 = Ret first_solution).
  { apply Hclaim.
    - vm_compute. reflexivity.
    - apply first_solution_wf.
    - unfold in_board. lia.
    - vm_compute. reflexivity.
    - vm_compute. reflexivity. }
  vm_compute in Hread. discriminate Hread.
Qed.

(** ** The theorems at work *)

Lemma dead_end_grid_wf : wf_grid dead_end_grid.
Proof. split; [done|]. by repeat constructor. Qed.

Lemma in_board_0 : in_board 0.
Proof. unfold in_board. lia. Qed.

Lemma empty_grid_zero (i j : Z) :
  in_board i → in_board j → cell empty_grid i j = Ret 0.
Proof.
  intros Hi Hj. rewrite (cell_val empty_grid i j empty_grid_wf) by done. f_equal.
  assert (Hall : Forall (λ x : Z * Z, val empty_grid x.1 x.2 = 0) all_cells).
  { apply (bool_decide_unpack _). vm_compute. exact I. }
  apply (proj1 (Forall_forall _ _) Hall (i, j)). by apply elem_of_all_cells.
Qed.

Lemma solve_empty_witness :
  wf_grid empty_grid ∧
  (∀ i j, in_board i → in_board j → cell empty_grid i j = Ret 0) ∧
  ∃ g', solve empty_grid = Ret (true, g') ∧ complete g'.
Proof.
  split; [exact empty_grid_wf|]. split; [exact empty_grid_zero|].
  exact (solve_empty empty_grid empty_grid_wf empty_grid_zero).
Defined.

Lemma is_solved_never_true_witness :
  wf_grid first_solution ∧
  is_solved first_solution = Ret false ∧
  (∀ r c l v, in_board r → in_board c →
     get_valid_numbers first_solution r c = Ret l →
     cell first_solution r c = Ret v → l ≠ [v]) ∧
  (∀ i j temp, in_board i → in_board j →
     sample 10 0 first_solution i j temp = Ret (0, first_solution)).
Proof.
  split; [exact first_solution_wf|].
  exact (is_solved_never_true first_solution first_solution_wf).
Defined.

Lemma create_board_easy_witness :
  reverse all_cells ≡ₚ all_cells ∧
  ∃ g, Board_init reverse "easy" = Ret g ∧
       (30 ≤ length (get_empty_cells g))%nat ∧
       solve empty_grid = Ret (true, first_solution) ∧
       complete first_solution ∧
       ∀ i j, in_board i → in_board j →
         cell g i j =
           Ret (if decide ((i, j) ∈ take 30 (reverse all_cells))
                then 0 else val first_solution i j).
Proof.
  split; [apply reverse_Permutation|].
  exact (create_board_easy reverse (reverse_Permutation all_cells)).
Defined.

Lemma impossible_unknown : "impossible" ∉ ["easy"; "medium"; "hard"; "expert"].
Proof. apply (bool_decide_unpack _). vm_compute. exact I. Qed.

Lemma unknown_difficulty_rejected_witness :
  "impossible" ∉ ["easy"; "medium"; "hard"; "expert"] ∧
  Board_init reverse "impossible" = Raise (KeyError "impossible") ∧
  ∀ g, Board_init reverse "impossible" ≠ Ret g.
Proof.
  split; [exact impossible_unknown|].
  exact (unknown_difficulty_rejected reverse "impossible" impossible_unknown).
Defined.

Lemma solve_false_restores_witness :
  wf_grid dead_end_grid ∧
  solve dead_end_grid = Ret (false, dead_end_grid) ∧
  dead_end_grid = dead_end_grid.
Proof.
  assert (Hres : solve dead_end_grid = Ret (false, dead_end_grid))
    by (vm_compute; reflexivity).
  split; [exact dead_end_grid_wf|]. split; [exact Hres|].
  exact (solve_false_restores dead_end_grid dead_end_grid dead_end_grid_wf Hres).
Defined.

Lemma get_valid_numbers_spec_witness :
  wf_grid dead_end_grid ∧ in_board 0 ∧ in_board 0 ∧
  ∃ l, get_valid_numbers dead_end_grid 0 0 = Ret l ∧
       StronglySorted Z.lt l ∧
       ∀ d, d ∈ l ↔
         1 ≤ d ≤ 9 ∧
         (∀ j, in_board j → cell dead_end_grid 0 j ≠ Ret d) ∧
         (∀ i, in_board i → cell dead_end_grid i 0 ≠ Ret d) ∧
         (∀ i j, in_board i → in_board j →
                 i `div` 3 = 0 `div` 3 → j `div` 3 = 0 `div` 3 →
                 cell dead_end_grid i j ≠ Ret d).
Proof.
  split; [exact dead_end_grid_wf|]. split; [exact in_board_0|].
  split; [exact in_board_0|].
  exact (get_valid_numbers_spec dead_end_grid 0 0
           dead_end_grid_wf in_board_0 in_board_0).
Defined.

Lemma get_min_remaining_values_cell_spec_witness :
  wf_grid dead_end_grid ∧
  (get_min_remaining_values_cell dead_end_grid = Ret None ↔
   get_empty_cells dead_end_grid = []) ∧
  (get_empty_cells dead_end_grid ≠ [] →
   ∃ x pre post n,
     get_min_remaining_values_cell dead_end_grid = Ret (Some x) ∧
     get_empty_cells dead_end_grid = pre ++ x :: post ∧
     has_candidates dead_end_grid x n ∧
     (∀ y, y ∈ pre → ∃ m, has_candidates dead_end_grid y m ∧ (n < m)%nat) ∧
     (∀ y, y ∈ post → ∃ m, has_candidates dead_end_grid y m ∧ (n ≤ m)%nat)).
Proof.
  split; [exact dead_end_grid_wf|].
  exact (get_min_remaining_values_cell_spec dead_end_grid dead_end_grid_wf).
Defined.

Lemma example_board_read :
  Obj.read example_board.1 example_board.2 = Ret first_solution.
Proof. vm_compute. reflexivity. Qed.

Lemma get_row_get_col_values_witness :
  Obj.read example_board.1 example_board.2 = Ret first_solution ∧
  wf_grid first_solution ∧ in_board 0 ∧ in_board 0 ∧
  (∃ h' l col,
     Obj.get_col example_board.1 example_board.2 0 = Ret (h', Obj.Ref l) ∧
     get_col first_solution 0 = Ret col ∧ length col = 9%nat ∧
     Obj.ints h' (Obj.Ref l) = Ret col ∧
     ∀ xs, Obj.read (<[l := xs]> h') example_board.2 = Ret first_solution) ∧
  (∃ rows l row,
     Obj.get_row example_board.1 example_board.2 0 = Ret (Obj.Ref l) ∧
     get_row first_solution 0 = Ret row ∧ length row = 9%nat ∧
     Obj.ints example_board.1 (Obj.Ref l) = Ret row ∧
     example_board.1 !! Obj.grid example_board.2 = Some rows ∧
     rows !! Z.to_nat 0 = Some (Obj.Ref l)).
Proof.
  split; [exact example_board_read|]. split; [exact first_solution_wf|].
  split; [exact in_board_0|]. split; [exact in_board_0|].
  exact (get_row_get_col_values example_board.1 example_board.2 first_solution
           0 0 example_board_read first_solution_wf in_board_0 in_board_0).
Defined.

Lemma solve_terminates_witness :
  wf_grid dead_end_grid ∧
  ∃ b g', solve dead_end_grid = Ret (b, g') ∧
          ∀ fuel, (length (get_empty_cells dead_end_grid) < fuel)%nat →
                  solve_rec fuel dead_end_grid = Ret (b, g').
Proof.
  split; [exact dead_end_grid_wf|].
  exact (solve_terminates dead_end_grid dead_end_grid_wf).
Defined.

(** * Further properties *)

(** ** Complete grids *)

Lemma conflict_free_check_sound (g : Grid) :
  conflict_free_check g → conflict_free g.
Proof.
  intros Hall r c r' c' Hr Hc Hr' Hc' Hne Hunit.
  pose proof (proj1 (Forall_forall _ _) Hall (r, c)
                (proj2 (elem_of_all_cells r c) (conj Hr Hc))) as Hrow.
  exact (proj1 (Forall_forall _ _) Hrow (r', c')
           (proj2 (elem_of_all_cells r' c') (conj Hr' Hc')) Hne Hunit).
Qed.

Lemma cells_in_range_check_sound (g : Grid) :
  cells_in_range_check g → cells_in_range g.
Proof.
  intros Hall r c Hr Hc.
  exact (proj1 (Forall_forall _ _) Hall (r, c)
           (proj2 (elem_of_all_cells r c) (conj Hr Hc))).
Qed.

Lemma get_row_vals (g : Grid) (r : Z) :
  wf_grid g → in_board r →
  get_row g r = Ret ((λ j, val g r j) <$> range BOARD_SIZE).
Proof.
  intros Hwf Hr. destruct (get_row_wf g r Hwf Hr) as (row & Hrow & Hlen & ->).
  f_equal. apply list_eq. intros k. rewrite list_lookup_fmap.
  destruct (decide (k < 9)%nat) as [Hk|Hk].
  - unfold range, BOARD_SIZE. rewrite lookup_seqZ_lt by lia. simpl.
    assert (Hik : in_board (Z.of_nat k)) by (unfold in_board; lia).
    destruct (wf_cell g r (Z.of_nat k) Hwf Hr Hik) as (row' & v & Hrow' & Hv & Hcell).
    rewrite Nat2Z.id in Hv. simplify_eq. rewrite Hv. f_equal.
    symmetry. replace (0 + Z.of_nat k) with (Z.of_nat k) by lia.
    by apply val_cell.
  - unfold range, BOARD_SIZE. rewrite lookup_seqZ_ge by lia.
    by rewrite lookup_ge_None_2 by lia.
Qed.

Lemma NoDup_fmap_inj_on {A B} (f : A → B) (l : list A) (x y : A) :
  NoDup (f <$> l) → x ∈ l → y ∈ l → f x = f y → x = y.
Proof.
  intros Hnd [i Hi]%list_elem_of_lookup [j Hj]%list_elem_of_lookup Hxy.
  assert (i = j) as ->; [|congruence].
  apply (proj1 (NoDup_alt _) Hnd i j (f x)).
  - by rewrite list_lookup_fmap, Hi.
  - by rewrite list_lookup_fmap, Hj, Hxy.
Qed.

Lemma perm_digits (l : list Z) :
  NoDup l → length l = 9%nat → (∀ x, x ∈ l → 1 ≤ x ≤ 9) → l ≡ₚ digits.
Proof.
  intros Hnd Hlen Hin. apply submseteq_length_Permutation.
  - apply NoDup_submseteq; [done|]. intros x Hx%Hin.
    unfold digits, range2. apply elem_of_seqZ. lia.
  - rewrite Hlen. done.
Qed.

Lemma digits_elem (l : list Z) (x : Z) : l ≡ₚ digits → x ∈ l → 1 ≤ x ≤ 9.
Proof.
  intros Hl Hx. rewrite Hl in Hx. unfold digits, range2 in Hx.
  apply elem_of_seqZ in Hx. lia.
Qed.

Lemma digits_NoDup (l : list Z) : l ≡ₚ digits → NoDup l.
Proof. intros ->. apply NoDup_seqZ. Qed.

Lemma box_offset_of (r i : Z) :
  in_board r → in_board i → i `div` 3 = r `div` 3 →
  0 ≤ i - r `div` BOX_SIZE * BOX_SIZE < 3.
Proof. unfold in_board, BOX_SIZE. intros. Z.to_euclidean_division_equations. lia. Qed.

(** A 9x9 grid is complete exactly when it has no conflict and no cell
    outside 1..9. *)
Lemma complete_iff (s : Grid) :
  wf_grid s →
  complete s ↔
  conflict_free s ∧ ∀ r c, in_board r → in_board c → 1 ≤ val s r c ≤ 9.
Proof.
  intros Hwf. split.
  - intros (Hrows & Hcols & Hboxes). split.
    + intros r c r' c' Hr Hc Hr' Hc' Hne [->|[->|[Hbr Hbc]]] _ Heq.
      * destruct (Hrows r' Hr') as (l & Hl & Hperm).
        rewrite get_row_vals in Hl by done.
        assert (l = (λ j, val s r' j) <$> range BOARD_SIZE) as -> by congruence.
        apply Hne. f_equal.
        apply (NoDup_fmap_inj_on (λ j, val s r' j) (range BOARD_SIZE));
          [by apply digits_NoDup|by apply in_board_range..|done].
      * destruct (Hcols c' Hc') as (l & Hl & Hperm).
        rewrite get_col_wf in Hl by done.
        assert (l = (λ i, val s i c') <$> range BOARD_SIZE) as -> by congruence.
        apply Hne. f_equal.
        apply (NoDup_fmap_inj_on (λ i, val s i c') (range BOARD_SIZE));
          [by apply digits_NoDup|by apply in_board_range..|done].
      * destruct (Hboxes r c Hr Hc) as (l & Hl & Hperm).
        rewrite get_box_wf in Hl by done.
        set (br := r `div` BOX_SIZE * BOX_SIZE) in *.
        set (bc := c `div` BOX_SIZE * BOX_SIZE) in *.
        assert (l = (λ ij : Z * Z, val s (br + ij.1) (bc + ij.2)) <$> box_offsets)
          as -> by congruence.
        assert (Hsame : (r - br, c - bc) = (r' - br, c' - bc)).
        { apply (NoDup_fmap_inj_on
                   (λ ij : Z * Z, val s (br + ij.1) (bc + ij.2)) box_offsets).
          - by apply digits_NoDup.
          - apply elem_of_box_offsets. split; by apply box_offset_of.
          - apply elem_of_box_offsets. split; by apply box_offset_of.
          - simpl. replace (br + (r - br)) with r by lia.
            replace (bc + (c - bc)) with c by lia.
            replace (br + (r' - br)) with r' by lia.
            replace (bc + (c' - bc)) with c' by lia. done. }
        apply Hne. injection Hsame as ??. f_equal; lia.
    + intros r c Hr Hc. destruct (Hrows r Hr) as (l & Hl & Hperm).
      rewrite get_row_vals in Hl by done.
      assert (l = (λ j, val s r j) <$> range BOARD_SIZE) as -> by congruence.
      apply (digits_elem _ _ Hperm). apply list_elem_of_fmap.
      exists c. split; [done|]. by apply in_board_range.
  - intros [Hfree Hrange].
    assert (Hnz : ∀ r c, in_board r → in_board c → val s r c ≠ 0).
    { intros r c Hr Hc. specialize (Hrange r c Hr Hc). lia. }
    split_and!.
    + intros r Hr. eexists. split; [by apply get_row_vals|].
      apply perm_digits.
      * apply NoDup_fmap_2_strong; [|apply NoDup_seqZ].
        intros j j' Hj%in_board_range Hj'%in_board_range Heq.
        destruct (decide (j = j')) as [|Hne]; [done|]. exfalso.
        apply (Hfree r j r j'); try done; [congruence|by left|by apply Hnz].
      * by rewrite length_fmap.
      * intros x (j & -> & Hj%in_board_range)%list_elem_of_fmap. by apply Hrange.
    + intros c Hc. eexists. split; [by apply get_col_wf|].
      apply perm_digits.
      * apply NoDup_fmap_2_strong; [|apply NoDup_seqZ].
        intros i i' Hi%in_board_range Hi'%in_board_range Heq.
        destruct (decide (i = i')) as [|Hne]; [done|]. exfalso.
        apply (Hfree i c i' c); try done; [congruence|right; by left|by apply Hnz].
      * by rewrite length_fmap.
      * intros x (i & -> & Hi%in_board_range)%list_elem_of_fmap. by apply Hrange.
    + intros r c Hr Hc. eexists. split; [by apply get_box_wf|].
      assert (Hbox : ∀ a b, (a, b) ∈ box_offsets →
                in_board (r `div` BOX_SIZE * BOX_SIZE + a) ∧
                in_board (c `div` BOX_SIZE * BOX_SIZE + b)).
      { intros a b [Ha Hb]%elem_of_box_offsets. split; by apply box_in_board. }
      apply perm_digits.
      * apply NoDup_fmap_2_strong.
        2: { apply (bool_decide_unpack _). vm_compute. exact I. }
        intros [a b] [a' b'] Hab Hab' Heq. simpl in Heq.
        destruct (decide ((a, b) = (a', b'))) as [|Hne]; [done|]. exfalso.
        destruct (Hbox a b Hab) as [H1 H2], (Hbox a' b' Hab') as [H3 H4].
        apply elem_of_box_offsets in Hab, Hab'.
        apply (Hfree _ _ _ _ H1 H2 H3 H4); [| |by apply Hnz|done].
        -- intros [= ??]. apply Hne. f_equal; lia.
        -- right; right. unfold BOX_SIZE.
           split; Z.to_euclidean_division_equations; lia.
      * by rewrite length_fmap.
      * intros x ([a b] & -> & Hab)%list_elem_of_fmap.
        destruct (Hbox a b Hab). by apply Hrange.
Qed.

(** ** What the search finds *)

Lemma val_of_cell_eq (a b : Grid) (i j i' j' : Z) :
  cell a i j = cell b i' j' → val a i j = val b i' j'.
Proof. unfold val. by intros ->. Qed.

(** A candidate of a cell differs from every value in the units of the
    cell. *)
Lemma valid_not_peer (g : Grid) (row col : Z) (l : list Z) (d : Z) :
  wf_grid g → in_board row → in_board col →
  get_valid_numbers g row col = Ret l → d ∈ l →
  ∀ r c, in_board r → in_board c → same_unit row col r c → val g r c ≠ d.
Proof.
  intros Hwf Hrow Hcol Hl Hd r c Hr Hc Hunit Hval.
  destruct (get_valid_numbers_wf g row col Hwf Hrow Hcol) as (used & Hget & Hused).
  rewrite Hget in Hl. injection Hl as <-.
  apply list_elem_of_filter in Hd as [Hnot _]. apply Hnot.
  apply elem_of_list_to_set, Hused.
  assert (Hcell : cell g r c = Ret d) by (rewrite <- Hval; by apply cell_val).
  destruct Hunit as [->|[->|[Hbr Hbc]]].
  - left. by exists c.
  - right. left. by exists r.
  - right. right. by exists r, c.
Qed.

(** The value that a completion gives to an empty cell is one of the
    candidates of the cell. *)
Lemma solution_candidate (g s : Grid) (row col : Z) (l : list Z) :
  wf_grid g → wf_grid s → complete s → extends s g →
  in_board row → in_board col → val g row col = 0 →
  get_valid_numbers g row col = Ret l → val s row col ∈ l.
Proof.
  intros Hwf Hwfs [Hfree Hrange]%complete_iff Hext Hrow Hcol Hzero Hl; [|done].
  destruct (get_valid_numbers_wf g row col Hwf Hrow Hcol) as (used & Hget & Hused).
  rewrite Hget in Hl. injection Hl as <-.
  pose proof (Hrange row col Hrow Hcol) as Hd.
  apply list_elem_of_filter. split.
  2: { unfold digits, range2. apply elem_of_seqZ. lia. }
  rewrite elem_of_list_to_set, Hused.
  assert (Hpeer : ∀ r c, in_board r → in_board c → same_unit r c row col →
            cell g r c ≠ Ret (val s row col)).
  { intros r c Hr Hc Hunit Hcell. apply val_cell in Hcell.
    destruct (decide ((r, c) = (row, col))) as [[= -> ->]|Hne]; [lia|].
    apply (Hfree r c row col); try done.
    - rewrite (Hext r c) by (done || lia). lia.
    - rewrite (Hext r c) by (done || lia). done. }
  intros [(j & Hj & Hcell)|[(i & Hi & Hcell)|(i & j & Hi & Hj & ? & ? & Hcell)]].
  - apply (Hpeer row j); [done..|by left|done].
  - apply (Hpeer i col); [done..|right; by left|done].
  - apply (Hpeer i j); [done..|right; by right|done].
Qed.

Lemma same_unit_sym (r c r' c' : Z) : same_unit r c r' c' → same_unit r' c' r c.
Proof.
  unfold same_unit.
  intros [?|[?|[??]]]; [left|right; left|right; right]; done.
Qed.

Lemma try_candidates_full (solve_self : Grid → result (bool * Grid))
    (row col : Z) (g : Grid) (l nums : list Z) :
  wf_grid g → in_board row → in_board col → val g row col = 0 →
  get_valid_numbers g row col = Ret l → nums ⊆ l →
  (∀ s, wf_grid s → complete s → extends s g → val s row col ∈ nums) →
  (∀ g1, wf_grid g1 →
         (length (get_empty_cells g1) < length (get_empty_cells g))%nat →
         solve_post_full g1 (solve_self g1)) →
  solve_post_full g (try_candidates solve_self row col nums g).
Proof.
  intros Hwf Hrow Hcol Hzero Hl Hsub Hsol Hself.
  induction nums as [|num nums IH].
  { exists false, g. split_and!; [done..| |done].
    intros _. split; [done|]. intros s Hs Hcs Hext.
    specialize (Hsol s Hs Hcs Hext). inv Hsol. }
  assert (Hnum : num ∈ l) by (apply Hsub; left).
  destruct (set_cell_wf g row col num Hwf Hrow Hcol)
    as (g1 & Hset & Hwf1 & Hnew & Hother & Hlen & Hback).
  rewrite Hzero in Hlen, Hback.
  pose proof (valid_numbers_digit g row col l num Hl Hnum) as Hdigit.
  assert (length (get_empty_cells g1) < length (get_empty_cells g))%nat.
  { unfold zero_count in Hlen. simpl in Hlen.
    destruct (Z.eqb_spec num 0); [lia|lia]. }
  assert (Hval1 : val g1 row col = num) by by apply val_cell.
  assert (Hvalo : ∀ r c, in_board r → in_board c → (r, c) ≠ (row, col) →
            val g1 r c = val g r c).
  { intros r c Hr Hc Hne. apply val_of_cell_eq. by apply Hother. }
  assert (Hext1 : extends g1 g).
  { intros r c Hr Hc Hnz. apply Hvalo; [done..|]. intros [= -> ->]. lia. }
  destruct (Hself g1) as (b & g2 & Hres & Hwf2 & Hfalse & Htrue); [done..|].
  simpl. rewrite Hset. simpl. rewrite Hres. simpl.
  destruct b.
  - exists true, g2. split_and!; [done..| |]; [done|]. intros _.
    destruct (Htrue eq_refl) as (Hempty & Hext2 & Hfree2 & Hrange2).
    split_and!; [done| | |].
    + intros r c Hr Hc Hnz. rewrite <- (Hext1 r c) by done.
      apply Hext2; [done..|]. by rewrite (Hext1 r c).
    + intros Hfree. apply Hfree2.
      intros r c r' c' Hr Hc Hr' Hc' Hne Hunit Hnz.
      destruct (decide ((r, c) = (row, col))) as [[= -> ->]|Hne1].
      * rewrite Hval1, Hvalo by (done || congruence).
        intros Heq. by apply (valid_not_peer g row col l num Hwf Hrow Hcol Hl Hnum r' c').
      * rewrite Hvalo in Hnz |- * by done.
        destruct (decide ((r', c') = (row, col))) as [[= -> ->]|Hne2].
        -- rewrite Hval1.
           apply (valid_not_peer g row col l num Hwf Hrow Hcol Hl Hnum r c);
             [done..|]. by apply same_unit_sym.
        -- rewrite Hvalo by done. by apply Hfree.
    + intros Hrange. apply Hrange2. intros r c Hr Hc.
      destruct (decide ((r, c) = (row, col))) as [[= -> ->]|Hne1].
      * rewrite Hval1. lia.
      * rewrite Hvalo by done. by apply Hrange.
  - destruct (Hfalse eq_refl) as [-> Hnone]. rewrite Hback. simpl.
    apply IH.
    + intros d Hd. apply Hsub. by right.
    + intros s Hs Hcs Hext.
      specialize (Hsol s Hs Hcs Hext). apply elem_of_cons in Hsol as [Heq|]; [|done].
      exfalso. apply (Hnone s Hs Hcs).
      intros r c Hr Hc Hnz.
      destruct (decide ((r, c) = (row, col))) as [[= -> ->]|Hne1].
      * by rewrite Hval1.
      * rewrite Hvalo in Hnz |- * by done. by apply Hext.
Qed.

Lemma solve_rec_full (fuel : nat) (g : Grid) :
  wf_grid g → (length (get_empty_cells g) < fuel)%nat →
  solve_post_full g (solve_rec fuel g).
Proof.
  revert g. induction fuel as [|fuel IH]; intros g Hwf Hfuel; [lia|].
  simpl.
  destruct (mrv_cases g Hwf)
    as [[Hempty ->]|([row col] & pre & post & n & -> & Hsplit & _)]; simpl.
  { exists true, g. split_and!; [done..|]. intros _. by split_and!. }
  assert (Hin : (row, col) ∈ get_empty_cells g).
  { rewrite Hsplit. apply elem_of_app. right. left. }
  apply elem_of_get_empty_cells in Hin as (Hrow & Hcol & Hcell); [|done].
  destruct (get_valid_numbers_wf g row col Hwf Hrow Hcol) as (used & Hget & _).
  rewrite Hget. simpl.
  eapply (try_candidates_full _ row col g); [done..| |exact Hget|done| |].
  - by apply val_cell.
  - intros s Hs Hcs Hext.
    apply (solution_candidate g s row col); [done..|by apply val_cell|done].
  - intros g1 Hwf1 Hlt. apply IH; [done|lia].
Qed.

Lemma extends_check_sound (s g : Grid) : extends_check s g → extends s g.
Proof.
  intros Hall r c Hr Hc.
  exact (proj1 (Forall_forall _ _) Hall (r, c)
           (proj2 (elem_of_all_cells r c) (conj Hr Hc))).
Qed.

Lemma solve_full (g : Grid) : wf_grid g → solve_post_full g (solve g).
Proof. intros Hwf. apply solve_rec_full; [done|lia]. Qed.

(** A grid that some complete grid extends has no conflict and no cell
    outside 0..9. *)
Lemma extended_consistent (s g : Grid) :
  wf_grid s → complete s → extends s g → conflict_free g ∧ cells_in_range g.
Proof.
  intros Hwfs [Hfree Hrange]%complete_iff Hext; [|done]. split.
  - intros r c r' c' Hr Hc Hr' Hc' Hne Hunit Hnz.
    destruct (decide (val g r' c' = 0)) as [->|Hnz']; [done|].
    rewrite <- (Hext r c), <- (Hext r' c') by done.
    apply Hfree; try done. rewrite (Hext r c) by done. done.
  - intros r c Hr Hc. destruct (decide (val g r c = 0)) as [->|Hnz]; [lia|].
    rewrite <- (Hext r c) by done. specialize (Hrange r c Hr Hc). lia.
Qed.

(** X1: [solve] never changes a filled cell, and when it returns true it
    leaves no cell empty. *)
Theorem solve_keeps_filled_cells (g g' : Grid) (b : bool) :
  wf_grid g → solve g = Ret (b, g') →
  wf_grid g' ∧
  (∀ r c, in_board r → in_board c → val g r c ≠ 0 → cell g' r c = cell g r c) ∧
  (b = true → get_empty_cells g' = []).
Proof.
  intros Hwf Hres.
  destruct (solve_full g Hwf) as (b2 & g2 & Hres2 & Hwf2 & Hfalse & Htrue).
  rewrite Hres in Hres2. simplify_eq. split_and!; [done| |].
  - intros r c Hr Hc Hnz. destruct b2.
    + destruct (Htrue eq_refl) as (_ & Hext & _).
      rewrite !cell_val by done. f_equal. by apply Hext.
    + by destruct (Hfalse eq_refl) as [-> _].
  - intros ->. by destruct (Htrue eq_refl).
Qed.

(** X2: when [solve] returns true, the grid it leaves is complete exactly
    when the grid it was given had no conflict among its filled cells and
    no value outside 0..9: the search checks the values it places, not the
    ones it finds. *)
Theorem solve_true_complete (g g' : Grid) :
  wf_grid g → solve g = Ret (true, g') →
  complete g' ↔ conflict_free g ∧ cells_in_range g.
Proof.
  intros Hwf Hres.
  destruct (solve_full g Hwf) as (b2 & g2 & Hres2 & Hwf2 & _ & Htrue).
  rewrite Hres in Hres2. simplify_eq.
  destruct (Htrue eq_refl) as (Hempty & Hext & Hfree & Hrange). split.
  - intros Hcomplete. by apply (extended_consistent g2 g).
  - intros [Hf Hr]. apply complete_iff; [done|]. split; [by apply Hfree|].
    intros r c Hr' Hc'. pose proof (Hrange Hr r c Hr' Hc').
    enough (val g2 r c ≠ 0) by lia. intros Hzero.
    assert (Hin : (r, c) ∈ get_empty_cells g2).
    { apply elem_of_get_empty_cells; [done|]. split_and!; [done..|].
      rewrite <- Hzero. by apply cell_val. }
    rewrite Hempty in Hin. inv Hin.
Qed.

(** X3: when [solve] returns false, no complete grid has the filled cells
    of the grid it was given. *)
Theorem solve_false_unsolvable (g g' s : Grid) :
  wf_grid g → solve g = Ret (false, g') →
  wf_grid s → complete s → ¬ extends s g.
Proof.
  intros Hwf Hres.
  destruct (solve_full g Hwf) as (b2 & g2 & Hres2 & Hwf2 & Hfalse & _).
  rewrite Hres in Hres2. simplify_eq.
  destruct (Hfalse eq_refl) as [_ Hnone]. apply Hnone.
Qed.

Lemma solve_completion (g s : Grid) :
  wf_grid g → wf_grid s → complete s → extends s g →
  ∃ g', solve g = Ret (true, g') ∧ wf_grid g' ∧ complete g' ∧ extends g' g.
Proof.
  intros Hwf Hwfs Hcs Hext.
  destruct (solve_full g Hwf) as (b & g' & Hres & Hwf' & Hfalse & Htrue).
  destruct b.
  2: { destruct (Hfalse eq_refl) as [_ Hnone]. by destruct (Hnone s). }
  exists g'. destruct (Htrue eq_refl) as (Hempty & Hext' & Hfree & Hrange).
  destruct (extended_consistent s g Hwfs Hcs Hext) as [Hf Hr].
  split_and!; [done..| |done].
  apply complete_iff; [done|]. split; [by apply Hfree|].
  intros r c Hr' Hc'. pose proof (Hrange Hr r c Hr' Hc').
  enough (val g' r c ≠ 0) by lia. intros Hzero.
  assert (Hin : (r, c) ∈ get_empty_cells g').
  { apply elem_of_get_empty_cells; [done|]. split_and!; [done..|].
    rewrite <- Hzero. by apply cell_val. }
  rewrite Hempty in Hin. inv Hin.
Qed.

(** X4: on a grid that has a completion, [solve] returns true and leaves
    a complete grid with the filled cells it was given. *)
Theorem solve_of_solvable (g s : Grid) :
  wf_grid g → wf_grid s → complete s → extends s g →
  ∃ g', solve g = Ret (true, g') ∧ complete g' ∧ extends g' g.
Proof.
  intros Hwf Hwfs Hcs Hext.
  destruct (solve_completion g s Hwf Hwfs Hcs Hext)
    as (g' & Hres & _ & Hcomplete & Hext').
  by exists g'.
Qed.

(** X5: a second [solve] changes nothing: it returns what the first call
    returned and leaves the grid the first call left. *)
Theorem solve_idempotent (g g' : Grid) (b : bool) :
  wf_grid g → solve g = Ret (b, g') → solve g' = Ret (b, g').
Proof.
  intros Hwf Hres.
  destruct (solve_full g Hwf) as (b2 & g2 & Hres2 & Hwf2 & Hfalse & Htrue).
  rewrite Hres in Hres2. simplify_eq. destruct b2.
  - destruct (Htrue eq_refl) as (Hempty & _).
    unfold solve. rewrite Hempty. simpl.
    unfold get_min_remaining_values_cell. by rewrite Hempty.
  - by destruct (Hfalse eq_refl) as [-> _].
Qed.

(** ** Construction *)

Lemma difficulty_values_cases (label : string) (n : Z) :
  difficulty_values !! label = Some n → n ∈ [30; 40; 50; 60].
Proof.
  unfold difficulty_values. intros H.
  repeat (apply lookup_insert_Some in H as [[_ <-]|[_ H]];
          [set_solver|]).
  apply lookup_singleton_Some in H as [_ <-]. set_solver.
Qed.

Lemma dict_getitem_Some (d : gmap string Z) (key : string) (v : Z) :
  d !! key = Some v → dict_getitem d key = Ret v.
Proof. unfold dict_getitem. by intros ->. Qed.

Lemma Board_init_built (shuffle : list (Z * Z) → list (Z * Z))
    (label : string) (n : Z) :
  shuffle all_cells ≡ₚ all_cells → difficulty_values !! label = Some n →
  ∃ g, Board_init shuffle label = Ret g ∧ wf_grid g ∧
       length (get_empty_cells g) = Z.to_nat n ∧
       ∀ i j, in_board i → in_board j →
         cell g i j =
           Ret (if decide ((i, j) ∈ take (Z.to_nat n) (shuffle all_cells))
                then 0 else val first_solution i j).
Proof.
  intros Hperm Hlabel.
  assert (Hn : 0 < n ≤ 81).
  { apply difficulty_values_cases in Hlabel.
    repeat (apply elem_of_cons in Hlabel as [->|Hlabel]; [lia|]). inv Hlabel. }
  destruct (remove_cells_spec (Z.to_nat n) (shuffle all_cells) first_solution)
    as (g & Hrem & Hwf & Hlen & Hcells).
  - apply first_solution_wf.
  - rewrite Hperm. apply all_cells_NoDup.
  - intros x Hx. rewrite Hperm in Hx.
    by apply (proj1 (Forall_forall _ _) all_cells_filled).
  - rewrite first_solution_no_empty. simpl. lia.
  - rewrite first_solution_no_empty, Hperm. simpl.
    change (length all_cells) with 81%nat. lia.
  - rewrite Z2Nat.id in Hrem by lia.
    exists g. split_and!; [|done|done|].
    + unfold Board_init, create_board.
      change (py_ne _ _) with true. cbv iota.
      rewrite empty_grid_solved, (dict_getitem_Some _ _ _ Hlabel). exact Hrem.
    + intros i j Hi Hj. rewrite (Hcells i j Hi Hj).
      rewrite first_solution_no_empty. simpl. by rewrite Nat.sub_0_r.
Qed.

(** X6: [Board(label)] is built exactly for the four labels of
    [difficulty_values]; the board has exactly the number of empty cells
    that the label stands for, its other cells being those of the grid
    that [solve] builds from the empty grid.  Any other label ends in
    [KeyError]. *)
Theorem Board_init_spec (shuffle : list (Z * Z) → list (Z * Z)) (label : string) :
  shuffle all_cells ≡ₚ all_cells →
  match difficulty_values !! label with
  | Some n =>
      ∃ g, Board_init shuffle label = Ret g ∧ wf_grid g ∧
           Z.of_nat (length (get_empty_cells g)) = n ∧
           ∀ i j, in_board i → in_board j →
             cell g i j =
               Ret (if decide ((i, j) ∈ take (Z.to_nat n) (shuffle all_cells))
                    then 0 else val first_solution i j)
  | None => Board_init shuffle label = Raise (KeyError label)
  end.
Proof.
  intros Hperm. destruct (difficulty_values !! label) as [n|] eqn:Hlabel.
  - destruct (Board_init_built shuffle label n Hperm Hlabel)
      as (g & Hinit & Hwf & Hlen & Hcells).
    exists g. split_and!; [done..| |done].
    apply difficulty_values_cases in Hlabel.
    rewrite Hlen. repeat (apply elem_of_cons in Hlabel as [->|Hlabel]; [done|]).
    inv Hlabel.
  - by apply Board_init_unknown.
Qed.

(** X7: [solve] on a board built by [Board(label)] returns true and
    leaves a complete grid that has the filled cells of the board. *)
Theorem Board_init_solvable (shuffle : list (Z * Z) → list (Z * Z))
    (label : string) :
  shuffle all_cells ≡ₚ all_cells → is_Some (difficulty_values !! label) →
  ∃ g g', Board_init shuffle label = Ret g ∧
          solve g = Ret (true, g') ∧ complete g' ∧ extends g' g.
Proof.
  intros Hperm [n Hn].
  destruct (Board_init_built shuffle label n Hperm Hn)
    as (g & Hinit & Hwf & _ & Hcells).
  destruct (solve_completion g first_solution Hwf first_solution_wf
              first_solution_complete) as (g' & Hres & _ & Hcomplete & Hext).
  { intros r c Hr Hc Hnz. symmetry.
    pose proof (Hcells r c Hr Hc) as Hcell. apply val_cell in Hcell.
    rewrite Hcell in Hnz |- *. case_decide; [by destruct Hnz|reflexivity]. }
  exists g, g'. exact (conj Hinit (conj Hres (conj Hcomplete Hext))).
Qed.

(** ** Structural queries at the edges *)

Lemma zeros_in_row_sorted (i j0 : Z) (row : list Z) :
  StronglySorted row_major_lt (zeros_in_row i j0 row) ∧
  Forall (λ x : Z * Z, x.1 = i ∧ j0 ≤ x.2) (zeros_in_row i j0 row).
Proof.
  revert j0. induction row as [|v vs IH]; intros j0; simpl.
  { split; constructor. }
  destruct (IH (j0 + 1)) as [Hsorted Hall].
  assert (Hall' : Forall (λ x : Z * Z, x.1 = i ∧ j0 < x.2)
                    (zeros_in_row i (j0 + 1) vs)).
  { eapply Forall_impl; [exact Hall|]. simpl. intros x [? ?]. split; [done|lia]. }
  destruct (v =? 0); simpl.
  - split.
    + constructor; [done|]. eapply Forall_impl; [exact Hall'|].
      intros x [? ?]. right. simpl. split; [done|lia].
    + constructor; [simpl; split; [done|lia]|].
      eapply Forall_impl; [exact Hall'|]. simpl. intros x [? ?]. split; [done|lia].
  - split; [done|].
    eapply Forall_impl; [exact Hall'|]. simpl. intros x [? ?]. split; [done|lia].
Qed.

Lemma zeros_from_sorted (i0 : Z) (g : Grid) :
  StronglySorted row_major_lt (zeros_from i0 g) ∧
  Forall (λ x : Z * Z, i0 ≤ x.1) (zeros_from i0 g).
Proof.
  revert i0. induction g as [|row rows IH]; intros i0; simpl.
  { split; constructor. }
  destruct (IH (i0 + 1)) as [Hsorted Hall].
  destruct (zeros_in_row_sorted i0 0 row) as [Hrow Hrow_all]. split.
  - apply StronglySorted_app_2; [|done..].
    intros x y Hx Hy.
    pose proof (proj1 (Forall_forall _ _) Hrow_all x Hx) as [Hx1 _].
    pose proof (proj1 (Forall_forall _ _) Hall y Hy) as Hy1. simpl in Hy1.
    left. lia.
  - apply Forall_app. split.
    + eapply Forall_impl; [exact Hrow_all|]. simpl. intros x [? ?]. lia.
    + eapply Forall_impl; [exact Hall|]. simpl. intros x ?. lia.
Qed.

Lemma row_major_sorted_NoDup (l : list (Z * Z)) :
  StronglySorted row_major_lt l → NoDup l.
Proof.
  induction 1 as [|x l Hl IH Hx]; constructor; [|done].
  intros Hin. pose proof (proj1 (Forall_forall _ _) Hx x Hin) as Hlt.
  unfold row_major_lt in Hlt. lia.
Qed.

(** X8: [get_empty_cells] lists exactly the cells of the board that hold
    0, each once, in row-major order. *)
Theorem get_empty_cells_spec (g : Grid) :
  wf_grid g →
  (∀ r c, (r, c) ∈ get_empty_cells g ↔
          in_board r ∧ in_board c ∧ cell g r c = Ret 0) ∧
  StronglySorted row_major_lt (get_empty_cells g) ∧
  NoDup (get_empty_cells g) ∧
  (length (get_empty_cells g) ≤ 81)%nat.
Proof.
  intros Hwf.
  destruct (zeros_from_sorted 0 g) as [Hsorted _].
  assert (Hnodup : NoDup (get_empty_cells g))
    by by apply row_major_sorted_NoDup.
  split_and!; [|done..|].
  - intros r c. by apply elem_of_get_empty_cells.
  - change 81%nat with (length all_cells).
    apply submseteq_length, NoDup_submseteq; [done|].
    intros [r c] Hin. apply elem_of_all_cells.
    apply elem_of_get_empty_cells in Hin as (? & ? & _); done.
Qed.

(** The position of a cell in the list of its box. *)
Lemma box_offsets_lookup (a b : Z) :
  0 ≤ a < 3 → 0 ≤ b < 3 → box_offsets !! Z.to_nat (3 * a + b) = Some (a, b).
Proof.
  intros Ha Hb.
  assert (a = 0 ∨ a = 1 ∨ a = 2) as [-> | [-> | ->]] by lia;
    assert (b = 0 ∨ b = 1 ∨ b = 2) as [-> | [-> | ->]] by lia; reflexivity.
Qed.

(** X9: [get_box] returns the 9 cells of the box of the cell, row by row:
    the cell (i, j) of that box is at position 3 (i mod 3) + (j mod 3). *)
Theorem get_box_spec (g : Grid) (r c : Z) :
  wf_grid g → in_board r → in_board c →
  ∃ l, get_box g r c = Ret l ∧ length l = 9%nat ∧
       ∀ i j, in_board i → in_board j →
              i `div` 3 = r `div` 3 → j `div` 3 = c `div` 3 →
              l !! Z.to_nat (3 * (i `mod` 3) + j `mod` 3) = Some (val g i j).
Proof.
  intros Hwf Hr Hc. eexists. split; [by apply get_box_wf|]. split.
  { by rewrite length_fmap. }
  intros i j Hi Hj Hir Hjc. rewrite list_lookup_fmap.
  rewrite box_offsets_lookup by (apply Z.mod_pos_bound; lia). simpl.
  f_equal. unfold in_board, BOX_SIZE in *.
  f_equal; Z.to_euclidean_division_equations; lia.
Qed.

Lemma py_index_mod (i : Z) :
  -9 ≤ i ≤ 8 → py_index 9 i = Some (Z.to_nat (i `mod` 9)).
Proof.
  intros Hi. unfold py_index. change (Z.of_nat 9) with 9.
  destruct (Z.ltb_spec i 0).
  - replace (i `mod` 9) with (i + 9) by (Z.to_euclidean_division_equations; lia).
    destruct (Z.leb_spec 0 (i + 9)); [|lia].
    destruct (Z.ltb_spec (i + 9) 9); [done|lia].
  - replace (i `mod` 9) with i by (Z.to_euclidean_division_equations; lia).
    destruct (Z.leb_spec 0 i); [|lia].
    destruct (Z.ltb_spec i 9); [done|lia].
Qed.

Lemma py_index_out (i : Z) : ¬ -9 ≤ i ≤ 8 → py_index 9 i = None.
Proof.
  intros Hi. unfold py_index. change (Z.of_nat 9) with 9.
  destruct (Z.ltb_spec i 0).
  - destruct (Z.leb_spec 0 (i + 9)); [lia|done].
  - destruct (Z.leb_spec 0 i); [|lia].
    destruct (Z.ltb_spec i 9); [lia|done].
Qed.

Lemma getitem_mod {A} (l : list A) (i : Z) :
  length l = 9%nat → -9 ≤ i ≤ 8 → getitem l i = getitem l (i `mod` 9).
Proof.
  intros Hlen Hi. unfold getitem. rewrite Hlen.
  rewrite (py_index_mod i Hi), (py_index_mod (i `mod` 9)).
  - by rewrite Z.mod_mod.
  - pose proof (Z.mod_pos_bound i 9). lia.
Qed.

Lemma getitem_out {A} (l : list A) (i : Z) :
  length l = 9%nat → ¬ -9 ≤ i ≤ 8 → getitem l i = Raise IndexError.
Proof. intros Hlen Hi. unfold getitem. by rewrite Hlen, py_index_out. Qed.

Lemma in_board_mod (i : Z) : in_board (i `mod` 9).
Proof. unfold in_board. pose proof (Z.mod_pos_bound i 9). lia. Qed.

Lemma cell_mod (g : Grid) (i j : Z) :
  wf_grid g → -9 ≤ i ≤ 8 → -9 ≤ j ≤ 8 →
  cell g i j = cell g (i `mod` 9) (j `mod` 9).
Proof.
  intros Hwf Hi Hj. unfold cell.
  rewrite (getitem_mod g i) by (apply Hwf || done).
  destruct (get_row_wf g (i `mod` 9) Hwf (in_board_mod i))
    as (row & _ & Hlen & Hrow).
  unfold get_row in Hrow. rewrite Hrow. simpl. by apply getitem_mod.
Qed.

Lemma cell_out (g : Grid) (i j : Z) :
  wf_grid g → ¬ -9 ≤ i ≤ 8 ∨ ¬ -9 ≤ j ≤ 8 → cell g i j = Raise IndexError.
Proof.
  intros Hwf Hout. unfold cell.
  destruct (decide (-9 ≤ i ≤ 8)) as [Hi|Hi].
  2: { by rewrite getitem_out by (apply Hwf || done). }
  rewrite (getitem_mod g i) by (apply Hwf || done).
  destruct (get_row_wf g (i `mod` 9) Hwf (in_board_mod i))
    as (row & _ & Hlen & Hrow).
  unfold get_row in Hrow. rewrite Hrow. simpl.
  apply getitem_out; [done|]. by destruct Hout.
Qed.

Lemma mapM_ext_in {A B} (f f' : A → result B) (l : list A) :
  (∀ x, x ∈ l → f x = f' x) → mapM f l = mapM f' l.
Proof.
  induction l as [|x l IH]; intros Hf; [done|].
  change (mapM f (x :: l)) with (y ← f x ; ys ← mapM f l ; Ret (y :: ys)).
  change (mapM f' (x :: l)) with (y ← f' x ; ys ← mapM f' l ; Ret (y :: ys)).
  rewrite (Hf x) by left. rewrite IH; [done|]. intros y Hy. apply Hf. by right.
Qed.

Lemma mapM_cons_Raise {A B} (f : A → result B) (x : A) (l : list A) (e : exn) :
  f x = Raise e → mapM f (x :: l) = Raise e.
Proof.
  intros Hx.
  change (mapM f (x :: l)) with (y ← f x ; ys ← mapM f l ; Ret (y :: ys)).
  by rewrite Hx.
Qed.

Lemma get_col_mod (g : Grid) (c : Z) :
  wf_grid g → -9 ≤ c ≤ 8 → get_col g c = get_col g (c `mod` 9).
Proof.
  intros Hwf Hc. unfold get_col. apply mapM_ext_in.
  intros i Hi%in_board_range. rewrite (cell_mod g i c) by (done || unfold in_board in Hi; lia).
  f_equal. unfold in_board in Hi. Z.to_euclidean_division_equations; lia.
Qed.

Lemma get_box_mod (g : Grid) (r c : Z) :
  wf_grid g → -9 ≤ r ≤ 8 → -9 ≤ c ≤ 8 →
  get_box g r c = get_box g (r `mod` 9) (c `mod` 9).
Proof.
  intros Hwf Hr Hc. unfold get_box. apply mapM_ext_in.
  intros [a b] [Ha Hb]%elem_of_box_offsets. simpl. unfold BOX_SIZE.
  rewrite cell_mod; [|done|Z.to_euclidean_division_equations; lia..].
  f_equal; Z.to_euclidean_division_equations; lia.
Qed.

(** X10: a row or column index from -9 to -1 counts from the end, as
    Python's list indexing does: the structural queries and
    [get_valid_numbers] answer for the row and the column modulo 9. *)
Theorem negative_index_wraps (g : Grid) (r c : Z) :
  wf_grid g → -9 ≤ r ≤ 8 → -9 ≤ c ≤ 8 →
  get_row g r = get_row g (r `mod` 9) ∧
  get_col g c = get_col g (c `mod` 9) ∧
  get_box g r c = get_box g (r `mod` 9) (c `mod` 9) ∧
  get_valid_numbers g r c = get_valid_numbers g (r `mod` 9) (c `mod` 9).
Proof.
  intros Hwf Hr Hc.
  assert (Hrow : get_row g r = get_row g (r `mod` 9)).
  { unfold get_row. apply getitem_mod; [apply Hwf|done]. }
  split_and!; [done|by apply get_col_mod|by apply get_box_mod|].
  unfold get_valid_numbers.
  by rewrite Hrow, (get_col_mod g c), (get_box_mod g r c).
Qed.

(** X11: outside -9..8 a row or column index raises [IndexError], in each
    structural query and in [get_valid_numbers]. *)
Theorem index_out_of_range (g : Grid) (r c : Z) :
  wf_grid g →
  (¬ -9 ≤ r ≤ 8 → get_row g r = Raise IndexError) ∧
  (¬ -9 ≤ c ≤ 8 → get_col g c = Raise IndexError) ∧
  (¬ -9 ≤ r ≤ 8 ∨ ¬ -9 ≤ c ≤ 8 →
     get_box g r c = Raise IndexError ∧
     get_valid_numbers g r c = Raise IndexError).
Proof.
  intros Hwf.
  assert (Hrow : ¬ -9 ≤ r ≤ 8 → get_row g r = Raise IndexError).
  { intros Hr. apply getitem_out; [apply Hwf|done]. }
  assert (Hcol : ¬ -9 ≤ c ≤ 8 → get_col g c = Raise IndexError).
  { intros Hc. unfold get_col.
    change (range BOARD_SIZE) with (0 :: tail (range BOARD_SIZE)).
    apply mapM_cons_Raise, cell_out; [done|by right]. }
  split_and!; [done..|]. intros Hout.
  assert (Hbox : get_box g r c = Raise IndexError).
  { unfold get_box.
    change (i ← range BOX_SIZE; j ← range BOX_SIZE; [(i, j)])
      with ((0, 0) :: tail box_offsets).
    apply mapM_cons_Raise. simpl. apply cell_out; [done|].
    unfold BOX_SIZE.
    destruct Hout as [Hr|Hc]; [left|right];
      Z.to_euclidean_division_equations; lia. }
  split; [done|]. unfold get_valid_numbers.
  destruct (decide (-9 ≤ r ≤ 8)) as [Hr|Hr].
  - destruct Hout as [?|Hc]; [done|].
    unfold get_row. rewrite (getitem_mod g r) by (apply Hwf || done).
    destruct (get_row_wf g (r `mod` 9) Hwf (in_board_mod r)) as (row & _ & _ & Hg).
    unfold get_row in Hg. rewrite Hg. simpl. by rewrite Hcol.
  - by rewrite Hrow.
Qed.

(** ** Copies *)

Section copy.
Import Obj Copy.

Lemma deepcopy_Int (fuel : nat) (h : heap) (m : memo) (n : Z) :
  deepcopy fuel h m (Int n) = Ret (h, m, Int n).
Proof. by destruct fuel. Qed.

Lemma copy_items_cons (rec : heap → memo → value → result (heap * memo * value))
    (y : loc) (a : value) (xs : list value) (h : heap) (m : memo) :
  copy_items rec y (a :: xs) h m =
    ('(h1, m1, a') ← rec h m a ;
     ys ← deref h1 (Ref y) ;
     copy_items rec y xs (<[y := ys ++ [a']]> h1) m1).
Proof. reflexivity. Qed.

(** Copying the integers of a row appends them to the new list. *)
Lemma copy_items_ints (fuel : nat) (y : loc) (row : list Z) :
  ∀ (h : heap) (m : memo) (acc : list value),
  h !! y = Some acc →
  copy_items (deepcopy fuel) y (Int <$> row) h m =
    Ret (<[y := acc ++ (Int <$> row)]> h, m).
Proof.
  induction row as [|n row IH]; intros h m acc Hy.
  { simpl. by rewrite app_nil_r, insert_id. }
  change (Int <$> n :: row) with (Int n :: (Int <$> row)).
  simpl. rewrite deepcopy_Int. simpl. rewrite Hy. simpl.
  rewrite (IH _ m (acc ++ [Int n])) by apply lookup_insert_eq.
  by rewrite insert_insert_eq, <- app_assoc.
Qed.

(** The copy of a row that is not in the memo is a new list. *)
Lemma deepcopy_row (fuel : nat) (h : heap) (m : memo) (l : loc) (row : list Z) :
  h !! l = Some (Int <$> row) → m !! l = None →
  deepcopy (S fuel) h m (Ref l) =
    Ret (<[fresh (dom h) := Int <$> row]> h, <[l := fresh (dom h)]> m,
         Ref (fresh (dom h))).
Proof.
  intros Hl Hm. simpl. rewrite Hm, Hl. simpl.
  rewrite (copy_items_ints fuel _ row _ _ []) by apply lookup_insert_eq.
  simpl. by rewrite insert_insert_eq.
Qed.

Lemma deepcopy_miss (fuel : nat) (h : heap) (m : memo) (l : loc) :
  m !! l = None →
  deepcopy (S fuel) h m (Ref l) =
    (xs ← deref h (Ref l) ;
     '(h', m') ← copy_items (deepcopy fuel) (fresh (dom h)) xs
                   (<[fresh (dom h) := []]> h) (<[l := fresh (dom h)]> m) ;
     Ret (h', m', Ref (fresh (dom h)))).
Proof. intros Hm. simpl. by rewrite Hm. Qed.

Lemma fmap_Int_inj (a b : list Z) : Int <$> a = Int <$> b → a = b.
Proof.
  revert b. induction a as [|x a IH]; intros [|y b] Heq; try done.
  injection Heq as -> Heq. f_equal. by apply IH.
Qed.

Lemma fresh_None (h : heap) : h !! fresh (dom h) = None.
Proof. apply not_elem_of_dom, is_fresh. Qed.

Lemma copy_rows (fuel : nat) (h : heap) (lg y : loc) (rs : list value) :
  ∀ (rest : Grid) (hk : heap) (mk : memo) (done : Grid),
  Forall2 (λ v row, ∃ l, v = Ref l ∧ l ≠ lg ∧ h !! l = Some (Int <$> row))
          rs rest →
  copying h lg y hk mk done →
  ∃ h' m', copy_items (deepcopy (S fuel)) y rs hk mk = Ret (h', m') ∧
           copying h lg y h' m' (done ++ rest).
Proof.
  induction rs as [|v rs IH]; intros rest hk mk done Hrs Hinv.
  { inv Hrs. exists hk, mk. by rewrite app_nil_r. }
  inv Hrs. rename y0 into row, l' into rest. 
  destruct H1 as (l & -> & Hlg & Hl).
  destruct Hinv as (Hsub & Hy & Hmg & Hmemo & acc & Hacc & Hdone).
  assert (Hstep : ∃ h1 m1 l1,
            deepcopy (S fuel) hk mk (Ref l) = Ret (h1, m1, Ref l1) ∧
            h1 !! y = Some acc ∧ h1 !! l1 = Some (Int <$> row) ∧
            h !! l1 = None ∧ l1 ≠ y ∧
            copying h lg y h1 m1 done).
  { destruct (mk !! l) as [l1|] eqn:Hml.
    - destruct (Hmemo l l1 Hml Hlg) as (Hl1 & Hl1y & row' & Hrow' & Hk1).
      assert (row' = row) as ->.
      { rewrite Hl in Hrow'. injection Hrow' as Heq.
        symmetry. by apply fmap_Int_inj. }
      exists hk, mk, l1. split_and!; [|done..|].
      + simpl. by rewrite Hml.
      + split_and!; [done..|]. by exists acc.
    - pose proof (fresh_None hk) as Hfresh. set (l1 := fresh (dom hk)) in *.
      assert (Hl1 : h !! l1 = None).
      { destruct (h !! l1) eqn:Hh; [|done].
        by rewrite (lookup_weaken _ _ _ _ Hh Hsub) in Hfresh. }
      assert (Hl1y : l1 ≠ y) by congruence.
      exists (<[l1 := Int <$> row]> hk), (<[l := l1]> mk), l1. split_and!.
      + apply deepcopy_row; [|done]. by apply (lookup_weaken _ _ _ _ Hl Hsub).
      + by rewrite lookup_insert_ne.
      + apply lookup_insert_eq.
      + done.
      + done.
      + split_and!; [|done| | |].
        * by apply insert_subseteq_r.
        * by rewrite lookup_insert_ne.
        * intros a a' Ha Hane.
          destruct (decide (a = l)) as [->|Hal].
          -- rewrite lookup_insert_eq in Ha. injection Ha as <-.
             split_and!; [done..|]. exists row. split; [done|].
             apply lookup_insert_eq.
          -- rewrite lookup_insert_ne in Ha by done.
             destruct (Hmemo a a' Ha Hane) as (? & ? & row0 & ? & Hk).
             split_and!; [done..|]. exists row0. split; [done|].
             rewrite lookup_insert_ne; [done|]. congruence.
        * exists acc. split; [by rewrite lookup_insert_ne|].
          eapply Forall2_impl; [exact Hdone|].
          intros v0 row0 (l0 & -> & ? & ? & Hk). exists l0.
          split_and!; [done..|]. rewrite lookup_insert_ne; [done|]. congruence. }
  destruct Hstep as (h1 & m1 & l1 & Hcopy & Hacc1 & Hrow1 & Hl1 & Hl1y & Hinv1).
  destruct Hinv1 as (Hsub1 & _ & Hmg1 & Hmemo1 & acc1 & Hacc1' & Hdone1).
  assert (acc1 = acc) as -> by congruence.
  destruct (IH rest (<[y := acc ++ [Ref l1]]> h1) m1 (done ++ [row]))
    as (h' & m' & Hitems & Hinv'); [done| |].
  { split_and!; [by apply insert_subseteq_r|done|done| |].
    - intros a a' Ha Hane.
      destruct (Hmemo1 a a' Ha Hane) as (? & ? & row0 & ? & Hk).
      split_and!; [done..|]. exists row0. split; [done|].
      by rewrite lookup_insert_ne.
    - exists (acc ++ [Ref l1]). split; [apply lookup_insert_eq|].
      apply Forall2_app.
      + eapply Forall2_impl; [exact Hdone1|].
        intros v0 row0 (l0 & -> & ? & ? & Hk). exists l0.
        split_and!; [done..|]. by rewrite lookup_insert_ne.
      + constructor; [|constructor]. exists l1.
        split_and!; [done..|]. by rewrite lookup_insert_ne. }
  exists h', m'. split.
  - rewrite copy_items_cons, Hcopy. simpl. rewrite Hacc1. simpl. exact Hitems.
  - by rewrite <- app_assoc in Hinv'.
Qed.

Lemma matrix_rows (h : heap) (y : loc) (acc : list value) (g : Grid) :
  h !! y = Some acc →
  Forall2 (λ v row, ∃ l', v = Ref l' ∧ h !! l' = Some (Int <$> row)) acc g →
  matrix h (Ref y) = Ret g.
Proof.
  intros Hy Hacc. unfold matrix. simpl. rewrite Hy. simpl.
  apply mapM_Forall2. eapply Forall2_impl; [exact Hacc|].
  intros v row (l' & -> & Hl'). by apply ints_fmap.
Qed.

Lemma read_weaken (h h' : heap) (self : Board) (g : Grid) :
  read h self = Ret g → h ⊆ h' → read h' self = Ret g.
Proof.
  intros (rows & Hrows & Hall)%read_rows Hsub.
  apply (matrix_rows h' (grid self) rows).
  - by apply (lookup_weaken _ _ _ _ Hrows Hsub).
  - eapply Forall2_impl; [exact Hall|].
    intros v row (l & xs & -> & Hl & ->)%ints_inv. exists l.
    split; [done|]. by apply (lookup_weaken _ _ _ _ Hl Hsub).
Qed.

End copy.

(** X12: [get_grid] returns a snapshot.  The list it returns is a new
    object that reads as the grid of the board; the board reads as before;
    whatever is stored afterwards in an object that did not exist before
    the call (the lists of the copy are such) leaves the board as it is,
    and whatever is stored in an object that existed before the call (the
    lists of the board are such) leaves the copy as it is. *)
Theorem get_grid_snapshot (h : Obj.heap) (self : Obj.Board) (g : Grid) :
  Obj.read h self = Ret g →
  ∃ h' y,
    Copy.get_grid h self = Ret (h', Obj.Ref y) ∧
    h !! y = None ∧
    Copy.matrix h' (Obj.Ref y) = Ret g ∧
    Obj.read h' self = Ret g ∧
    (∀ l xs, h !! l = None → Obj.read (<[l := xs]> h') self = Ret g) ∧
    (∀ l xs, is_Some (h !! l) →
             Copy.matrix (<[l := xs]> h') (Obj.Ref y) = Ret g).
Proof.
  intros Hread.
  destruct (read_rows h self g Hread) as (rows & Hrows & Hall).
  set (lg := Obj.grid self) in *. set (y := fresh (dom h)).
  assert (Hy : h !! y = None) by apply fresh_None.
  assert (Hrs : Forall2 (λ v row, ∃ l, v = Obj.Ref l ∧ l ≠ lg ∧
                                       h !! l = Some (Obj.Int <$> row)) rows g).
  { apply Forall2_same_length_lookup. split; [by eapply Forall2_length|].
    intros i v row Hv Hrow.
    pose proof (Forall2_lookup_lr _ _ _ _ _ _ Hall Hv Hrow) as Hints.
    apply ints_inv in Hints as (l & xs & -> & Hl & ->).
    exists l. split_and!; [done| |done]. intros ->.
    assert (rows = Obj.Int <$> row) as -> by congruence.
    rewrite list_lookup_fmap in Hv. by destruct (row !! i). }
  destruct (size h) as [|fuel] eqn:Hsize.
  { apply map_size_empty_inv in Hsize. by rewrite Hsize, lookup_empty in Hrows. }
  destruct (copy_rows fuel h lg y rows g (<[y := []]> h) (<[lg := y]> ∅) [] Hrs)
    as (h' & m' & Hitems & Hinv).
  { split_and!; [by apply insert_subseteq|done|apply lookup_insert_eq| |].
    - intros l l' Hl Hne. by rewrite lookup_insert_ne, lookup_empty in Hl.
    - exists []. split; [apply lookup_insert_eq|constructor]. }
  simpl in Hinv.
  destruct Hinv as (Hsub & _ & _ & _ & acc & Hacc & Hdone).
  exists h', y. split_and!.
  - unfold Copy.get_grid. rewrite Hsize.
    rewrite deepcopy_miss by apply lookup_empty.
    unfold Obj.deref. fold lg y. rewrite Hrows.
    cbv beta iota delta [mbind result_bind]. by rewrite Hitems.
  - done.
  - apply (matrix_rows h' y acc); [done|].
    eapply Forall2_impl; [exact Hdone|]. intros v row (l' & -> & _ & _ & ?).
    by exists l'.
  - by apply (read_weaken h).
  - intros l xs Hl. apply (read_weaken h); [done|]. by apply insert_subseteq_r.
  - intros l xs [old Hl]. apply (matrix_rows _ y acc).
    + rewrite lookup_insert_ne; [done|]. congruence.
    + eapply Forall2_impl; [exact Hdone|]. intros v row (l' & -> & Hn & _ & ?).
      exists l'. split; [done|]. rewrite lookup_insert_ne; [done|]. congruence.
Qed.

(** ** Printing *)

Lemma string_app_assoc (a b c : string) : (a +:+ b) +:+ c = a +:+ b +:+ c.
Proof.
  induction a as [|x a IH]; [done|].
  change (String x ((a +:+ b) +:+ c) = String x (a +:+ b +:+ c)).
  by rewrite IH.
Qed.

Lemma string_app_nil_r (a : string) : a +:+ "" = a.
Proof.
  induction a as [|x a IH]; [done|].
  change (String x (a +:+ "") = String x a). by rewrite IH.
Qed.

Lemma pretty_digit (v : Z) :
  0 ≤ v ≤ 9 → pretty v = String (digit_char v) "".
Proof.
  intros Hv.
  assert (v ∈ seqZ 0 10) as Hin by (apply elem_of_seqZ; lia).
  clear Hv. revert v Hin. apply Forall_forall.
  apply (bool_decide_unpack _). vm_compute. exact I.
Qed.

Lemma digit_char_not_newline (v : Z) :
  0 ≤ v ≤ 9 → digit_char v ≠ Ascii.ascii_of_nat 10.
Proof.
  intros Hv.
  assert (v ∈ seqZ 0 10) as Hin by (apply elem_of_seqZ; lia).
  clear Hv. revert v Hin. apply Forall_forall.
  apply (bool_decide_unpack _). vm_compute. exact I.
Qed.

Ltac eval_guards :=
  repeat match goal with
         | |- context [bool_decide ?P && bool_decide ?Q] =>
             let b := eval vm_compute in (bool_decide P && bool_decide Q) in
             change (bool_decide P && bool_decide Q) with b
         end.

(** What the loop on [j] adds to the output for row [i]. *)
Lemma print_cells (g : Grid) (i : Z) (out : string) :
  wf_grid g → cells_in_range g → in_board i →
  for_each (print_cell g i) (range BOARD_SIZE) out = Ret (out +:+ row_line g i).
Proof.
  intros Hwf Hrange Hi.
  assert (Hcell : ∀ j o, in_board j →
            print_cell g i j o =
              Ret (let o' := o +:+ String (digit_char (val g i j)) "" +:+ " " in
                   if bool_decide ((j + 1) `mod` BOX_SIZE = 0) && bool_decide (j ≠ 8)
                   then o' +:+ "|" +:+ " " else o')).
  { intros j o Hj. unfold print_cell. rewrite (cell_val g i j) by done.
    simpl. by rewrite pretty_digit by by apply Hrange. }
  change (range BOARD_SIZE) with [0; 1; 2; 3; 4; 5; 6; 7; 8].
  cbn [for_each].
  repeat (rewrite Hcell by (unfold in_board; lia);
          cbv beta iota zeta delta [mbind result_bind]).
  eval_guards. cbv beta iota zeta. rewrite !string_app_assoc. reflexivity.
Qed.

Lemma print_row_out (g : Grid) (i : Z) (out : string) :
  wf_grid g → cells_in_range g → in_board i →
  print_row g i out =
    Ret (let o := out +:+ row_line g i +:+ newline in
         if bool_decide ((i + 1) `mod` BOX_SIZE = 0) && bool_decide (i ≠ 8)
         then o +:+ separator_line +:+ newline else o).
Proof.
  intros Hwf Hrange Hi. unfold print_row. rewrite print_cells by done.
  cbv beta iota zeta delta [mbind result_bind].
  by rewrite !string_app_assoc.
Qed.

Lemma row_line_width (g : Grid) (i : Z) :
  cells_in_range g → in_board i →
  String.length (row_line g i) = 22%nat ∧
  Ascii.ascii_of_nat 10 ∉ String.list_ascii_of_string (row_line g i).
Proof.
  intros Hrange Hi. split; [reflexivity|].
  unfold row_line. rewrite String.list_ascii_of_string_of_list_ascii.
  assert (Hd : ∀ j, in_board j →
            Ascii.ascii_of_nat 10 ≠ digit_char (val g i j)).
  { intros j Hj Heq. by apply (digit_char_not_newline (val g i j)); [apply Hrange|]. }
  assert (H0 : ∀ j, 0 ≤ j ≤ 8 → in_board j) by done.
  repeat (apply not_elem_of_cons; split;
          [lazymatch goal with
           | |- _ ≠ digit_char _ => apply Hd, H0; lia
           | |- _ => by vm_compute
           end|]).
  apply not_elem_of_nil.
Qed.

(** X13: on a 9x9 grid of values 0..9, [print_board] writes 11 lines, a
    newline after each: the 9 rows, in which every digit is followed by a
    space and the third and the sixth also by a bar and a space, and a
    line of dashes after the third and after the sixth row.  Every line is
    22 characters wide. *)
Theorem print_board_layout (g : Grid) :
  wf_grid g → cells_in_range g →
  print_board g = Ret (String.concat newline (board_lines g) +:+ newline) ∧
  Forall (λ l, String.length l = 22%nat ∧
               Ascii.ascii_of_nat 10 ∉ String.list_ascii_of_string l)
         (board_lines g).
Proof.
  intros Hwf Hrange. split.
  - unfold print_board.
    change (range BOARD_SIZE) with [0; 1; 2; 3; 4; 5; 6; 7; 8].
    cbn [for_each].
    repeat (rewrite print_row_out by (done || unfold in_board; lia);
            cbv beta iota zeta delta [mbind result_bind]).
    eval_guards. cbv beta iota zeta.
    unfold board_lines. cbn [String.concat].
    change ("" +:+ row_line g 0) with (row_line g 0).
    rewrite !string_app_assoc. reflexivity.
  - assert (Hsep : String.length separator_line = 22%nat ∧
                   Ascii.ascii_of_nat 10 ∉
                     String.list_ascii_of_string separator_line).
    { split; [reflexivity|]. by apply (bool_decide_unpack _). }
    unfold board_lines.
    repeat (constructor;
            [first [exact Hsep
                   | apply row_line_width; [done|unfold in_board; lia]]|]).
    constructor.
Qed.

(** ** Moves *)

(** X15: in a grid without conflict, the candidates of an empty cell are
    exactly the digits that can be put in the cell without making a
    conflict. *)
Theorem candidates_are_legal_moves (g g1 : Grid) (r c d : Z) :
  wf_grid g → conflict_free g → in_board r → in_board c →
  val g r c = 0 → set_cell g r c d = Ret g1 →
  ∃ l, get_valid_numbers g r c = Ret l ∧
       (d ∈ l ↔ 1 ≤ d ≤ 9 ∧ conflict_free g1).
Proof.
  intros Hwf Hfree Hr Hc Hzero Hset.
  destruct (set_cell_wf g r c d Hwf Hr Hc)
    as (g1' & Hset' & Hwf1 & Hnew & Hother & _).
  rewrite Hset in Hset'. injection Hset' as <-.
  assert (Hval1 : val g1 r c = d) by by apply val_cell.
  assert (Hvalo : ∀ i j, in_board i → in_board j → (i, j) ≠ (r, c) →
            val g1 i j = val g i j).
  { intros i j Hi Hj Hne. apply val_of_cell_eq. by apply Hother. }
  destruct (get_valid_numbers_wf g r c Hwf Hr Hc) as (used & Hget & Hused).
  eexists. split; [exact Hget|]. split.
  - intros Hd. split; [by apply (valid_numbers_digit g r c _ d Hget)|].
    intros i j i' j' Hi Hj Hi' Hj' Hne Hunit Hnz.
    destruct (decide ((i, j) = (r, c))) as [[= -> ->]|Hne1].
    + rewrite Hval1, Hvalo by (done || congruence). intros Heq.
      by apply (valid_not_peer g r c _ d Hwf Hr Hc Hget Hd i' j').
    + rewrite Hvalo in Hnz |- * by done.
      destruct (decide ((i', j') = (r, c))) as [[= -> ->]|Hne2].
      * rewrite Hval1.
        apply (valid_not_peer g r c _ d Hwf Hr Hc Hget Hd i j); [done..|].
        by apply same_unit_sym.
      * rewrite Hvalo by done. by apply Hfree.
  - intros [Hd Hfree1]. apply list_elem_of_filter. split.
    2: { unfold digits, range2. apply elem_of_seqZ. lia. }
    rewrite elem_of_list_to_set, Hused.
    assert (Hpeer : ∀ i j, in_board i → in_board j → same_unit r c i j →
              cell g i j ≠ Ret d).
    { intros i j Hi Hj Hunit Hcell. apply val_cell in Hcell.
      destruct (decide ((i, j) = (r, c))) as [[= -> ->]|Hne]; [lia|].
      assert (Hne' : (r, c) ≠ (i, j)) by congruence.
      assert (Hnz : val g1 r c ≠ 0) by (rewrite Hval1; lia).
      apply (Hfree1 r c i j Hr Hc Hi Hj Hne' Hunit Hnz).
      by rewrite Hval1, Hvalo. }
    intros [(j & Hj & Hcell)|[(i & Hi & Hcell)|(i & j & Hi & Hj & ? & ? & Hcell)]].
    + apply (Hpeer r j); [done..|by left|done].
    + apply (Hpeer i c); [done..|right; by left|done].
    + apply (Hpeer i j); [done..| |done]. right; right. split; congruence.
Qed.

(** X16: [solve] gives back a cell cleared from a complete grid: after
    [grid[r][c] = 0] on a complete grid, it returns true and leaves the
    complete grid again. *)
Theorem solve_restores_cleared_cell (s g : Grid) (r c : Z) :
  wf_grid s → complete s → in_board r → in_board c →
  set_cell s r c 0 = Ret g →
  solve g = Ret (true, s).
Proof.
  intros Hwfs Hcs Hr Hc Hset.
  destruct (set_cell_wf s r c 0 Hwfs Hr Hc)
    as (g0 & Hset' & Hwf & Hnew & Hother & _).
  rewrite Hset in Hset'. injection Hset' as <-.
  assert (Hvalo : ∀ i j, in_board i → in_board j → (i, j) ≠ (r, c) →
            val g i j = val s i j).
  { intros i j Hi Hj Hne. apply val_of_cell_eq. by apply Hother. }
  assert (Hext : extends s g).
  { intros i j Hi Hj Hnz. symmetry. apply Hvalo; [done..|].
    intros [= -> ->]. apply Hnz. by apply val_cell. }
  destruct (solve_completion g s Hwf Hwfs Hcs Hext)
    as (g' & Hres & Hwf' & Hcomplete & Hext').
  enough (g' = s) as -> by done.
  pose proof (proj1 (complete_iff s Hwfs) Hcs) as [Hfs Hrs].
  pose proof (proj1 (complete_iff g' Hwf') Hcomplete) as [Hfg Hrg].
  assert (Hsame : ∀ i j, in_board i → in_board j → (i, j) ≠ (r, c) →
            val g' i j = val s i j).
  { intros i j Hi Hj Hne. rewrite <- (Hvalo i j) by done.
    apply Hext'; [done..|]. rewrite Hvalo by done.
    specialize (Hrs i j Hi Hj). lia. }
  apply grid_ext; [done..|]. intros i j Hi Hj.
  rewrite !cell_val by done. f_equal.
  destruct (decide ((i, j) = (r, c))) as [[= -> ->]|Hne]; [|by apply Hsame].
  destruct Hcs as (Hrows & _).
  destruct (Hrows r Hr) as (l & Hl & Hperm).
  rewrite get_row_vals in Hl by done.
  assert (l = (λ j, val s r j) <$> range BOARD_SIZE) as -> by congruence.
  assert (Hin : val g' r c ∈ (λ j, val s r j) <$> range BOARD_SIZE).
  { rewrite Hperm. unfold digits, range2. apply elem_of_seqZ.
    specialize (Hrg r c Hr Hc). lia. }
  apply list_elem_of_fmap in Hin as (k & Heq & Hk%in_board_range).
  destruct (decide (k = c)) as [->|Hkc]; [done|]. exfalso.
  assert (Hne' : (r, c) ≠ (r, k)) by congruence.
  assert (Hnz : val g' r c ≠ 0) by (specialize (Hrg r c Hr Hc); lia).
  apply (Hfg r c r k Hr Hc Hr Hk Hne' ltac:(by left) Hnz).
  rewrite (Hsame r k) by (done || congruence). done.
Qed.

(** ** The window *)

(** X14: a press of the left button inside the window, above the bottom
    strip, selects a cell of the board, the one whose highlighted
    rectangle holds the pointer; in the bottom strip, or with another
    button, the selection stays as it is. *)
Theorem mouse_button_down_spec (button x y : Z) (selected : option (Z * Z)) :
  0 ≤ x < SCREEN_WIDTH → 0 ≤ y < SCREEN_HEIGHT →
  (button = 1 → y < 540 →
   ∃ r c, mouse_button_down button x y selected = Some (r, c) ∧
          in_board r ∧ in_board c ∧
          let '(x0, y0, width, height) := selected_rect (r, c) in
          x0 ≤ x < x0 + width ∧ y0 ≤ y < y0 + height) ∧
  (540 ≤ y ∨ button ≠ 1 → mouse_button_down button x y selected = selected).
Proof.
  unfold SCREEN_WIDTH, SCREEN_HEIGHT. intros Hx Hy. split.
  - intros -> Hy'. exists (y `div` CELL_SIZE), (x `div` CELL_SIZE).
    unfold mouse_button_down, SCREEN_HEIGHT.
    rewrite bool_decide_eq_true_2 by done.
    rewrite bool_decide_eq_true_2 by lia.
    unfold in_board, selected_rect, CELL_SIZE.
    split_and!; [done|..]; Z.to_euclidean_division_equations; lia.
  - intros Hstay. unfold mouse_button_down, SCREEN_HEIGHT.
    destruct Hstay as [Hy'|Hb].
    + case_bool_decide; [|done]. by rewrite bool_decide_eq_false_2 by lia.
    + by rewrite bool_decide_eq_false_2.
Qed.

(** ** The further properties at work *)

Lemma example_puzzle_wf : wf_grid example_puzzle.
Proof. split; [done|]. by repeat constructor. Qed.

Lemma example_puzzle_solve : solve example_puzzle = Ret (true, example_solved).
Proof. vm_compute. reflexivity. Qed.

Lemma dead_end_grid_solve : solve dead_end_grid = Ret (false, dead_end_grid).
Proof. vm_compute. reflexivity. Qed.

Lemma first_solution_extends_puzzle : extends first_solution example_puzzle.
Proof. apply extends_check_sound, (bool_decide_unpack _). vm_compute. exact I. Qed.

Lemma example_puzzle_in_range : cells_in_range example_puzzle.
Proof.
  apply cells_in_range_check_sound, (bool_decide_unpack _). vm_compute. exact I.
Qed.

Lemma solve_keeps_filled_cells_witness :
  wf_grid example_puzzle ∧ solve example_puzzle = Ret (true, example_solved) ∧
  wf_grid example_solved ∧
  (∀ r c, in_board r → in_board c → val example_puzzle r c ≠ 0 →
          cell example_solved r c = cell example_puzzle r c) ∧
  (true = true → get_empty_cells example_solved = []).
Proof.
  split; [exact example_puzzle_wf|]. split; [exact example_puzzle_solve|].
  exact (solve_keeps_filled_cells example_puzzle example_solved true
           example_puzzle_wf example_puzzle_solve).
Defined.

Lemma solve_true_complete_witness :
  wf_grid example_puzzle ∧ solve example_puzzle = Ret (true, example_solved) ∧
  (complete example_solved ↔
   conflict_free example_puzzle ∧ cells_in_range example_puzzle).
Proof.
  split; [exact example_puzzle_wf|]. split; [exact example_puzzle_solve|].
  exact (solve_true_complete example_puzzle example_solved
           example_puzzle_wf example_puzzle_solve).
Defined.

Lemma solve_false_unsolvable_witness :
  wf_grid dead_end_grid ∧ solve dead_end_grid = Ret (false, dead_end_grid) ∧
  wf_grid first_solution ∧ complete first_solution ∧
  ¬ extends first_solution dead_end_grid.
Proof.
  split; [exact dead_end_grid_wf|]. split; [exact dead_end_grid_solve|].
  split; [exact first_solution_wf|]. split; [exact first_solution_complete|].
  exact (solve_false_unsolvable dead_end_grid dead_end_grid first_solution
           dead_end_grid_wf dead_end_grid_solve
           first_solution_wf first_solution_complete).
Defined.

Lemma solve_of_solvable_witness :
  wf_grid example_puzzle ∧ wf_grid first_solution ∧ complete first_solution ∧
  extends first_solution example_puzzle ∧
  ∃ g', solve example_puzzle = Ret (true, g') ∧ complete g' ∧
        extends g' example_puzzle.
Proof.
  split; [exact example_puzzle_wf|]. split; [exact first_solution_wf|].
  split; [exact first_solution_complete|].
  split; [exact first_solution_extends_puzzle|].
  exact (solve_of_solvable example_puzzle first_solution
           example_puzzle_wf first_solution_wf first_solution_complete
           first_solution_extends_puzzle).
Defined.

Lemma solve_idempotent_witness :
  wf_grid example_puzzle ∧ solve example_puzzle = Ret (true, example_solved) ∧
  solve example_solved = Ret (true, example_solved).
Proof.
  split; [exact example_puzzle_wf|]. split; [exact example_puzzle_solve|].
  exact (solve_idempotent example_puzzle example_solved true
           example_puzzle_wf example_puzzle_solve).
Defined.

Lemma Board_init_spec_witness :
  reverse all_cells ≡ₚ all_cells ∧
  match difficulty_values !! "hard" with
  | Some n =>
      ∃ g, Board_init reverse "hard" = Ret g ∧ wf_grid g ∧
           Z.of_nat (length (get_empty_cells g)) = n ∧
           ∀ i j, in_board i → in_board j →
             cell g i j =
               Ret (if decide ((i, j) ∈ take (Z.to_nat n) (reverse all_cells))
                    then 0 else val first_solution i j)
  | None => Board_init reverse "hard" = Raise (KeyError "hard")
  end.
Proof.
  split; [apply reverse_Permutation|].
  exact (Board_init_spec reverse "hard" (reverse_Permutation all_cells)).
Defined.

Lemma expert_is_difficulty : is_Some (difficulty_values !! "expert").
Proof. by exists 60. Qed.

Lemma Board_init_solvable_witness :
  reverse all_cells ≡ₚ all_cells ∧ is_Some (difficulty_values !! "expert") ∧
  ∃ g g', Board_init reverse "expert" = Ret g ∧
          solve g = Ret (true, g') ∧ complete g' ∧ extends g' g.
Proof.
  split; [apply reverse_Permutation|]. split; [exact expert_is_difficulty|].
  exact (Board_init_solvable reverse "expert" (reverse_Permutation all_cells)
           expert_is_difficulty).
Defined.

Lemma get_empty_cells_spec_witness :
  wf_grid dead_end_grid ∧
  (∀ r c, (r, c) ∈ get_empty_cells dead_end_grid ↔
          in_board r ∧ in_board c ∧ cell dead_end_grid r c = Ret 0) ∧
  StronglySorted row_major_lt (get_empty_cells dead_end_grid) ∧
  NoDup (get_empty_cells dead_end_grid) ∧
  (length (get_empty_cells dead_end_grid) ≤ 81)%nat.
Proof.
  split; [exact dead_end_grid_wf|].
  exact (get_empty_cells_spec dead_end_grid dead_end_grid_wf).
Defined.

Lemma in_board_4 : in_board 4.
Proof. unfold in_board. lia. Qed.

Lemma in_board_7 : in_board 7.
Proof. unfold in_board. lia. Qed.

Lemma get_box_spec_witness :
  wf_grid example_puzzle ∧ in_board 4 ∧ in_board 7 ∧
  ∃ l, get_box example_puzzle 4 7 = Ret l ∧ length l = 9%nat ∧
       ∀ i j, in_board i → in_board j →
              i `div` 3 = 4 `div` 3 → j `div` 3 = 7 `div` 3 →
              l !! Z.to_nat (3 * (i `mod` 3) + j `mod` 3) =
                Some (val example_puzzle i j).
Proof.
  split; [exact example_puzzle_wf|]. split; [exact in_board_4|].
  split; [exact in_board_7|].
  exact (get_box_spec example_puzzle 4 7 example_puzzle_wf in_board_4 in_board_7).
Defined.

Lemma index_minus_1 : -9 ≤ -1 ≤ 8.
Proof. lia. Qed.

Lemma index_minus_9 : -9 ≤ -9 ≤ 8.
Proof. lia. Qed.

Lemma negative_index_wraps_witness :
  wf_grid example_puzzle ∧ -9 ≤ -1 ≤ 8 ∧ -9 ≤ -9 ≤ 8 ∧
  get_row example_puzzle (-1) = get_row example_puzzle (-1 `mod` 9) ∧
  get_col example_puzzle (-9) = get_col example_puzzle (-9 `mod` 9) ∧
  get_box example_puzzle (-1) (-9) =
    get_box example_puzzle (-1 `mod` 9) (-9 `mod` 9) ∧
  get_valid_numbers example_puzzle (-1) (-9) =
    get_valid_numbers example_puzzle (-1 `mod` 9) (-9 `mod` 9).
Proof.
  split; [exact example_puzzle_wf|]. split; [exact index_minus_1|].
  split; [exact index_minus_9|].
  exact (negative_index_wraps example_puzzle (-1) (-9)
           example_puzzle_wf index_minus_1 index_minus_9).
Defined.

Lemma index_out_of_range_witness :
  wf_grid example_puzzle ∧
  (¬ -9 ≤ 9 ≤ 8 → get_row example_puzzle 9 = Raise IndexError) ∧
  (¬ -9 ≤ -10 ≤ 8 → get_col example_puzzle (-10) = Raise IndexError) ∧
  (¬ -9 ≤ 9 ≤ 8 ∨ ¬ -9 ≤ -10 ≤ 8 →
     get_box example_puzzle 9 (-10) = Raise IndexError ∧
     get_valid_numbers example_puzzle 9 (-10) = Raise IndexError).
Proof.
  split; [exact example_puzzle_wf|].
  exact (index_out_of_range example_puzzle 9 (-10) example_puzzle_wf).
Defined.

Lemma get_grid_snapshot_witness :
  Obj.read example_board.1 example_board.2 = Ret first_solution ∧
  ∃ h' y,
    Copy.get_grid example_board.1 example_board.2 = Ret (h', Obj.Ref y) ∧
    example_board.1 !! y = None ∧
    Copy.matrix h' (Obj.Ref y) = Ret first_solution ∧
    Obj.read h' example_board.2 = Ret first_solution ∧
    (∀ l xs, example_board.1 !! l = None →
             Obj.read (<[l := xs]> h') example_board.2 = Ret first_solution) ∧
    (∀ l xs, is_Some (example_board.1 !! l) →
             Copy.matrix (<[l := xs]> h') (Obj.Ref y) = Ret first_solution).
Proof.
  split; [exact example_board_read|].
  exact (get_grid_snapshot example_board.1 example_board.2 first_solution
           example_board_read).
Defined.

Lemma print_board_layout_witness :
  wf_grid example_puzzle ∧ cells_in_range example_puzzle ∧
  print_board example_puzzle =
    Ret (String.concat newline (board_lines example_puzzle) +:+ newline) ∧
  Forall (λ l, String.length l = 22%nat ∧
               Ascii.ascii_of_nat 10 ∉ String.list_ascii_of_string l)
         (board_lines example_puzzle).
Proof.
  split; [exact example_puzzle_wf|]. split; [exact example_puzzle_in_range|].
  exact (print_board_layout example_puzzle
           example_puzzle_wf example_puzzle_in_range).
Defined.

Lemma pointer_x : 0 ≤ 130 < SCREEN_WIDTH.
Proof. unfold SCREEN_WIDTH. lia. Qed.

Lemma pointer_y : 0 ≤ 250 < SCREEN_HEIGHT.
Proof. unfold SCREEN_HEIGHT. lia. Qed.

Lemma mouse_button_down_spec_witness :
  0 ≤ 130 < SCREEN_WIDTH ∧ 0 ≤ 250 < SCREEN_HEIGHT ∧
  (1 = 1 → 250 < 540 →
   ∃ r c, mouse_button_down 1 130 250 None = Some (r, c) ∧
          in_board r ∧ in_board c ∧
          let '(x0, y0, width, height) := selected_rect (r, c) in
          x0 ≤ 130 < x0 + width ∧ y0 ≤ 250 < y0 + height) ∧
  (540 ≤ 250 ∨ 1 ≠ 1 → mouse_button_down 1 130 250 None = None).
Proof.
  split; [exact pointer_x|]. split; [exact pointer_y|].
  exact (mouse_button_down_spec 1 130 250 None pointer_x pointer_y).
Defined.

Lemma example_puzzle_conflict_free : conflict_free example_puzzle.
Proof.
  apply conflict_free_check_sound, (bool_decide_unpack _). vm_compute. exact I.
Qed.

Lemma example_puzzle_empty_0_0 : val example_puzzle 0 0 = 0.
Proof. reflexivity. Qed.

Lemma example_puzzle_move :
  set_cell example_puzzle 0 0 2 =
    Ret (<[0%nat := [2; 0; 0; 0; 0; 0; 0; 0; 0]]> example_puzzle).
Proof. reflexivity. Qed.

Lemma candidates_are_legal_moves_witness :
  wf_grid example_puzzle ∧ conflict_free example_puzzle ∧
  in_board 0 ∧ in_board 0 ∧ val example_puzzle 0 0 = 0 ∧
  set_cell example_puzzle 0 0 2 =
    Ret (<[0%nat := [2; 0; 0; 0; 0; 0; 0; 0; 0]]> example_puzzle) ∧
  ∃ l, get_valid_numbers example_puzzle 0 0 = Ret l ∧
       (2 ∈ l ↔
        1 ≤ 2 ≤ 9 ∧
        conflict_free (<[0%nat := [2; 0; 0; 0; 0; 0; 0; 0; 0]]> example_puzzle)).
Proof.
  split; [exact example_puzzle_wf|]. split; [exact example_puzzle_conflict_free|].
  split; [exact in_board_0|]. split; [exact in_board_0|].
  split; [exact example_puzzle_empty_0_0|]. split; [exact example_puzzle_move|].
  exact (candidates_are_legal_moves example_puzzle _ 0 0 2
           example_puzzle_wf example_puzzle_conflict_free in_board_0 in_board_0
           example_puzzle_empty_0_0 example_puzzle_move).
Defined.

Lemma first_solution_clear :
  set_cell first_solution 4 7 0 =
    Ret (<[4%nat := [8; 7; 5; 9; 1; 2; 3; 0; 4]]> first_solution).
Proof. reflexivity. Qed.

Lemma solve_restores_cleared_cell_witness :
  wf_grid first_solution ∧ complete first_solution ∧ in_board 4 ∧ in_board 7 ∧
  set_cell first_solution 4 7 0 =
    Ret (<[4%nat := [8; 7; 5; 9; 1; 2; 3; 0; 4]]> first_solution) ∧
  solve (<[4%nat := [8; 7; 5; 9; 1; 2; 3; 0; 4]]> first_solution) =
    Ret (true, first_solution).
Proof.
  split; [exact first_solution_wf|]. split; [exact first_solution_complete|].
  split; [exact in_board_4|]. split; [exact in_board_7|].
  split; [exact first_solution_clear|].
  exact (solve_restores_cleared_cell first_solution _ 4 7
           first_solution_wf first_solution_complete in_board_4 in_board_7
           first_solution_clear).
Defined.
